(** * vnm-incident-manager: on-call contacts and engagement plans

    A shallow embedding of the two administration scripts
    [im-update1.py] (create/update contacts, engagement plans and response
    plans) and [im-delete-contacts.py] (delete contacts), together with the
    properties their specification states about them.

    Conventions of the embedding:
    - Python [int] delays are [Z]; Python [str] is [string];
    - a Python [dict] whose iteration order is observable is an
      insertion-ordered association list ([dict]); the grouping table of the
      plan builder, whose keys are only ever read back sorted, is a [gmap];
    - remote calls, sleeps and console output are events appended to a trace
      that is threaded through a state-and-exception monad. *)

From stdpp Require Import base decidable option list sorting gmap strings pretty.
From Stdlib Require Import ZArith Lia.

Local Open Scope string_scope.
Local Open Scope Z_scope.
Local Open Scope list_scope.

(** ** Insertion-ordered dictionaries *)

Section dict.
Context {K V : Type} `{EqDecision K}.

Fixpoint dict_get (k : K) (d : list (K * V)) : option V :=
  match d with
  | [] => None
  | (k', v) :: d' => if decide (k = k') then Some v else dict_get k d'
  end.

(** [d[k] = v]: an existing key keeps its position, a new key goes last. *)
Fixpoint dict_set (k : K) (v : V) (d : list (K * V)) : list (K * V) :=
  match d with
  | [] => [(k, v)]
  | (k', v') :: d' =>
      if decide (k = k') then (k, v) :: d' else (k', v') :: dict_set k v d'
  end.

(** [k in d] *)
Definition dict_mem (k : K) (d : list (K * V)) : bool :=
  bool_decide (is_Some (dict_get k d)).

Definition dict_keys (d : list (K * V)) : list K := d.*1.
Definition dict_values (d : list (K * V)) : list V := d.*2.
End dict.

Abbreviation dict K V := (list (K * V)) (only parsing).

(** ** Exceptions *)

(** The scripts tell two classes of exception apart: [ClientError], which
    boto3 raises for an error response of the remote service and which
    carries the service's error code ([e.response['Error']['Code']]), and
    every other [Exception].  [text] is what [f"{e}"] prints. *)
Inductive exn :=
  | ClientError (Code : string) (text : string)
  | OtherException (text : string).

Definition is_ClientError (e : exn) : bool :=
  match e with ClientError _ _ => true | OtherException _ => false end.

(** [except Exception] *)
Definition is_Exception (e : exn) : bool := true.

Definition error_code (e : exn) : string :=
  match e with ClientError Code _ => Code | OtherException _ => "" end.

Definition str_exn (e : exn) : string :=
  match e with ClientError _ text => text | OtherException text => text end.

Inductive outcome (A : Type) :=
  | Returned (a : A)
  | Raised (e : exn).
Arguments Returned {A} a.
Arguments Raised {A} e.

(** ** Data exchanged with the remote service *)

(** [{"ChannelTargetInfo": {"ContactChannelId": ..., "RetryIntervalInMinutes": ...}}] *)
Record target := {
  ContactChannelId : string;
  RetryIntervalInMinutes : Z
}.

Record stage := {
  DurationInMinutes : Z;
  Targets : list target
}.

(** Response of [get_contact]; both keys are read with [.get]. *)
Record get_contact_response := {
  DisplayName : option string;
  ContactType : option string
}.

(** An element of [response['ContactChannels']]. *)
Record contact_channel := {
  ContactChannelArn : string;
  Name : string;
  Type_ : string
}.

(** An element of [page['responsePlanSummaries']]. *)
Record response_plan_summary := {
  summary_arn : string;
  summary_name : string
}.

(** What iterating [paginator.paginate()] yields: the pages fetched, and the
    exception that ends the iteration early, if any. *)
Record pagination := {
  pages : list (list response_plan_summary);
  pagination_error : option exn
}.

(** The remote operations the two scripts invoke, with their arguments. *)
Inductive api_call :=
  | sts_get_caller_identity
  | ssm_contacts_get_contact (ContactId : string)
  | ssm_contacts_create_contact
      (Alias DisplayName Type_ : string) (Plan : list stage)
  | ssm_contacts_update_contact (ContactId : string) (Plan : list stage)
  | ssm_contacts_delete_contact (ContactId : string)
  | ssm_contacts_list_contact_channels (ContactId : string)
  | ssm_contacts_create_contact_channel
      (ContactId Name Type_ SimpleAddress : string)
  | ssm_contacts_delete_contact_channel (ContactChannelId : string)
  | ssm_incidents_get_response_plan (arn : string)
  | ssm_incidents_update_response_plan (arn : string) (engagements : list string)
  | ssm_incidents_list_response_plans.

(** The part of a successful response the scripts read. *)
Definition response_of (c : api_call) : Type :=
  match c with
  | sts_get_caller_identity => string                      (* ['Account'] *)
  | ssm_contacts_get_contact _ => get_contact_response
  | ssm_contacts_create_contact _ _ _ _ => string          (* ["ContactArn"] *)
  | ssm_contacts_update_contact _ _ => unit
  | ssm_contacts_delete_contact _ => unit
  | ssm_contacts_list_contact_channels _ => list contact_channel
  | ssm_contacts_create_contact_channel _ _ _ _ => string  (* ["ContactChannelArn"] *)
  | ssm_contacts_delete_contact_channel _ => unit
  | ssm_incidents_get_response_plan _ => list string       (* ['engagements'] *)
  | ssm_incidents_update_response_plan _ _ => unit
  | ssm_incidents_list_response_plans => pagination
  end.

(** The calls that change remote state. *)
Definition mutating (c : api_call) : bool :=
  match c with
  | ssm_contacts_create_contact _ _ _ _
  | ssm_contacts_create_contact_channel _ _ _ _
  | ssm_contacts_update_contact _ _
  | ssm_incidents_update_response_plan _ _
  | ssm_contacts_delete_contact_channel _
  | ssm_contacts_delete_contact _ => true
  | _ => false
  end.

(** ** Effects *)

(** What a run does that is visible from outside, in order. *)
Inductive event :=
  | Call (c : api_call)
  | Sleep (seconds : Z)
  | Print (line : string)
  | Input (prompt : string).

(** Everything outside the script.  The remote service may answer a call
    in any way, depending on all that happened before. *)
Record world := {
  respond : list event → ∀ c : api_call, outcome (response_of c);
  (** [boto3.Session().region_name] *)
  session_region_name : option string;
  (** the exception [boto3.client(...)] raises, if any *)
  client_failure : option exn;
  (** what the operator types at [input(...)] *)
  typed : list event → string
}.

(** The mutable state: the memoised account identifier of the helper object
    and the events so far. *)
Record state := {
  account_id : option string;
  trace : list event
}.

Definition initial_state : state := {| account_id := None; trace := [] |}.

Definition emit (ev : event) (s : state) : state :=
  {| account_id := account_id s; trace := trace s ++ [ev] |}.

Definition M (A : Type) : Type := state → outcome A * state.

Definition ret {A} (a : A) : M A := λ s, (Returned a, s).

Definition bind {A B} (m : M A) (f : A → M B) : M B := λ s,
  match m s with
  | (Returned a, s') => f a s'
  | (Raised e, s') => (Raised e, s')
  end.

Declare Scope M_scope.
Delimit Scope M_scope with M.
Bind Scope M_scope with M.

Notation "x ← y ; z" := (bind y (λ x : _, z))
  (at level 20, y at level 100, z at level 200, only parsing) : M_scope.
Notation "' x ← y ; z" := (bind y (λ x : _, z))
  (at level 20, x pattern, y at level 100, z at level 200, only parsing)
  : M_scope.
Notation "x ;; z" := (bind x (λ _, z))
  (at level 100, z at level 200, only parsing, right associativity) : M_scope.

Local Open Scope M_scope.

Definition raise {A} (e : exn) : M A := λ s, (Raised e, s).

(** [try: body  except <class> as e: handler e] *)
Definition try_except {A} (body : M A) (class : exn → bool)
    (handler : exn → M A) : M A := λ s,
  match body s with
  | (Raised e, s') => if class e then handler e s' else (Raised e, s')
  | r => r
  end.

(** Runs [m] and hands its outcome back as a value. *)
Definition attempt {A} (m : M A) : M (outcome A) := λ s,
  let '(r, s') := m s in (Returned r, s').

Definition call (w : world) (c : api_call) : M (response_of c) := λ s,
  (respond w (trace s) c, emit (Call c) s).

Definition print (line : string) : M unit := λ s,
  (Returned tt, emit (Print line) s).

Definition sleep (seconds : Z) : M unit := λ s,
  (Returned tt, emit (Sleep seconds) s).

Definition input (w : world) (prompt : string) : M string := λ s,
  (Returned (typed w (trace s)), emit (Input prompt) s).

(** [for x in l: body x] *)
Fixpoint for_each {A} (l : list A) (body : A → M unit) : M unit :=
  match l with
  | [] => ret tt
  | x :: l' => body x;; for_each l' body
  end.

(** A [for] loop that updates local variables [acc]. *)
Fixpoint for_fold {A B} (l : list A) (acc : B) (body : B → A → M B) : M B :=
  match l with
  | [] => ret acc
  | x :: l' => acc' ← body acc x; for_fold l' acc' body
  end.

(** [response[key]]: subscripting [None] is a [TypeError]. *)
Definition subscript {A} (response : option A) : M A :=
  match response with
  | Some r => ret r
  | None => raise (OtherException "'NoneType' object is not subscriptable")
  end.

(** [enumerate(l)] *)
Definition enumerate {A} (l : list A) : list (nat * A) :=
  imap (λ i x, (i, x)) l.

(** Truthiness of an optional string: [None] and [""] are false. *)
Definition truthy (o : option string) : bool :=
  match o with
  | Some r => negb (bool_decide (r = ""))
  | None => false
  end.

(** [a or b] on optional strings *)
Definition or_else (a b : option string) : option string :=
  if truthy a then a else b.

(** [a or d] where [d] is a string *)
Definition or_default (a : option string) (d : string) : string :=
  if truthy a then default "" a else d.

(** [', '.join(l)] *)
Definition join (sep : string) (l : list string) : string :=
  String.concat sep l.

(** [repr] of a string without quotes, backslashes or control characters. *)
Definition repr_str (r : string) : string := "'" +:+ r +:+ "'".

(** [d[k]] for a string key; a missing key is a [KeyError]. *)
Definition getitem {V} (k : string) (d : list (string * V)) : M V :=
  match dict_get k d with
  | Some v => ret v
  | None => raise (OtherException (repr_str k))
  end.

(** The line feed, and the rule [c * 60] that frames the summaries. *)
Definition nl : string := String (Ascii.ascii_of_nat 10) "".
Definition line (c : string) : string := String.concat "" (replicate 60 c).
Definition rule : string := line "=".

(** [str] of a list of integers, as [print] shows it. *)
Definition str_list_Z (l : list Z) : string :=
  "[" +:+ join ", " (pretty <$> l) +:+ "]".

Definition str_bool (b : bool) : string := if b then "True" else "False".

(** ** The helper object

    [AWSIncidentManagerHelper] and [AWSContactDeletionHelper] have the same
    attributes and define [log], [get_account_id] and [get_contact_arn]
    identically; they are given once. *)
Record helper := {
  dry_run : bool;
  verbose : bool;
  region : option string
}.

Definition log (self : helper) (message : string) (level : string) : M unit :=
  if negb (verbose self) && bool_decide (level = "DEBUG") then ret tt
  else
    let prefix :=
      if decide (level = "INFO") then "✓"
      else if decide (level = "WARN") then "!"
      else if decide (level = "ERROR") then "✗"
      else if decide (level = "DEBUG") then "→"
      else "•" in
    print (prefix +:+ " " +:+ message).

Definition get_account_id (w : world) : M string := λ s,
  match account_id s with
  | None =>
      match call w sts_get_caller_identity s with
      | (Returned Account, s') =>
          (Returned Account,
           {| account_id := Some Account; trace := trace s' |})
      | (Raised e, s') => (Raised e, s')
      end
  | Some Account => (Returned Account, s)
  end.

Definition get_contact_arn (w : world) (self : helper) (alias : string)
    : M string :=
  let region :=
    or_default (or_else (region self) (session_region_name w)) "us-east-1" in
  Account ← get_account_id w;
  ret ("arn:aws:ssm-contacts:" +:+ region +:+ ":" +:+ Account
          +:+ ":contact/" +:+ alias).

(* ================================================================== *)
(** * im-update1.py *)

Module Update.

(** ** Configuration tables *)

(** One entry of [details["channels"]]; [engagement_time_minutes] may be
    absent ([.get("engagement_time_minutes", 0)]). *)
Record channel_config := {
  type : string;
  address : string;
  engagement_time_minutes : option Z
}.

(** [CONTACTS_DEFINITION[alias]] *)
Record contact_details := {
  name : string;
  channels : list channel_config
}.

(** An entry of the local list [channel_info]. *)
Record channel := {
  arn : string;
  engagement_time : Z;
  channel_type : string
}.

(** ** The engagement-plan builder ([create_or_update_contact], step 3) *)

(** The channels that have a reference in [channel_arns_by_type]. *)
Definition channel_info (channels : list channel_config)
    (channel_arns_by_type : dict string string) : list channel :=
  omap (λ channel_config,
          let channel_type := type channel_config in
          match dict_get channel_type channel_arns_by_type with
          | Some a =>
              Some {| arn := a;
                      engagement_time :=
                        default 0 (engagement_time_minutes channel_config);
                      channel_type := channel_type |}
          | None => None
          end) channels.

(** Body of the grouping loop. *)
Definition add_to_group (engagement_groups : gmap Z (list channel))
    (ch : channel) : gmap Z (list channel) :=
  let engagement_time := engagement_time ch in
  let engagement_groups :=
    if decide (is_Some (engagement_groups !! engagement_time))
    then engagement_groups
    else <[engagement_time := []]> engagement_groups in
  <[engagement_time := (engagement_groups !!! engagement_time) ++ [ch]]>
    engagement_groups.

Definition engagement_groups (channel_info : list channel)
    : gmap Z (list channel) :=
  foldl add_to_group ∅ channel_info.

(** [sorted(engagement_groups.keys())] *)
Definition sorted_engagement_times (engagement_groups : gmap Z (list channel))
    : list Z :=
  merge_sort Z.le (elements (dom engagement_groups)).

(** The initial wait stage, emitted when the first engagement is not at T=0. *)
Definition initial_wait (sorted_engagement_times : list Z) : list stage :=
  match sorted_engagement_times with
  | t0 :: _ =>
      if decide (0 < t0)
      then [{| DurationInMinutes := t0; Targets := [] |}]
      else []
  | [] => []
  end.

(** [duration] of the stage built at position [i] of the sorted times. *)
Definition stage_duration (sorted_engagement_times : list Z) (i : nat)
    (engagement_time : Z) : Z :=
  let next_engagement_time :=
    if decide (i + 1 < length sorted_engagement_times)%nat
    then sorted_engagement_times !! (i + 1)%nat
    else None in
  match next_engagement_time with
  | Some next_engagement_time => next_engagement_time - engagement_time
  | None => 1
  end.

(** [engagement_groups[engagement_time]]; the key always comes from the
    table's own keys, so the lookup cannot fail. *)
Definition channels_at (engagement_groups : gmap Z (list channel))
    (engagement_time : Z) : list channel :=
  engagement_groups !!! engagement_time.

Definition channel_target (ch : channel) : target :=
  {| ContactChannelId := arn ch; RetryIntervalInMinutes := 2 |}.

(** Body of the stage loop. *)
Definition group_stage (engagement_groups : gmap Z (list channel))
    (sorted_engagement_times : list Z) (i : nat) (engagement_time : Z) : stage :=
  let duration := stage_duration sorted_engagement_times i engagement_time in
  let targets := channel_target <$> channels_at engagement_groups engagement_time in
  {| DurationInMinutes := duration; Targets := targets |}.

(** [plan_stages] as sent to [update_contact]. *)
Definition plan_stages (channel_info : list channel) : list stage :=
  let engagement_groups := engagement_groups channel_info in
  let sorted_engagement_times := sorted_engagement_times engagement_groups in
  initial_wait sorted_engagement_times
    ++ imap (group_stage engagement_groups sorted_engagement_times)
            sorted_engagement_times.

(** Sum of the wait durations of a list of stages, and the offset (minutes
    after the start of the engagement) at which stage [i] of a plan engages
    its targets: the waits of all stages before it. *)
Definition total_wait (stages : list stage) : Z :=
  foldr (λ st acc, DurationInMinutes st + acc) 0 stages.

Definition engaged_at (plan : list stage) (i : nat) : Z :=
  total_wait (take i plan).

(** The targets of all channels of [channel_info] that share the delay [d]. *)
Definition targets_at (channel_info : list channel) (d : Z) : list target :=
  channel_target <$> filter (λ ch, engagement_time ch = d) channel_info.


(** [RESPONSE_PLANS_TO_UPDATE[plan_name]] *)
Record response_plan_update := {
  contacts_to_engage : list string
}.

(** [CONFIG] *)
Record config := {
  CONFIG_dry_run : bool;
  CONFIG_retry_attempts : Z;
  CONFIG_retry_delay : Z;
  CONFIG_aws_region : option string;
  CONFIG_verbose : bool
}.

(** The tables as the script ships them. *)
Definition shipped_CONTACTS_DEFINITION : dict string contact_details :=
  let ch t a m :=
    {| type := t; address := a; engagement_time_minutes := Some m |} in
  [ ("lmhung", {| name := "L M Hung";
       channels := [ch "EMAIL" "lmhung@vinamilk.com.vn" 15;
                    ch "SMS" "+84984001202" 15] |});
    ("dnkhanh", {| name := "D N Khanh";
       channels := [ch "EMAIL" "dnkhanh@vinamilk.com.vn" 15;
                    ch "SMS" "+84329097001" 15] |});
    ("ntquy", {| name := "N T Quy";
       channels := [ch "EMAIL" "ntquy@vinamilk.com.vn" 15;
                    ch "SMS" "+84934198680" 15] |});
    ("dvcong", {| name := "D V Cong";
       channels := [ch "EMAIL" "dvcong@vinamilk.com.vn" 10;
                    ch "SMS" "+84344353188" 15] |}) ].

Definition shipped_RESPONSE_PLANS_TO_UPDATE : dict string response_plan_update :=
  [ ("vnm-data-prod-aws-health-crictical-response",
     {| contacts_to_engage := ["lmhung"; "dnkhanh"] |});
    ("vnm-data-prod-aws-health-high-response",
     {| contacts_to_engage := ["lmhung"; "ntquy"; "dvcong"] |}) ].

Definition shipped_CONFIG : config :=
  {| CONFIG_dry_run := false;
     CONFIG_retry_attempts := 3;
     CONFIG_retry_delay := 2;
     CONFIG_aws_region := None;
     CONFIG_verbose := true |}.

(** ** Methods of [AWSIncidentManagerHelper] *)

Section methods.
Context (w : world) (CONFIG : config).
Context (CONTACTS_DEFINITION : dict string contact_details).
Context (RESPONSE_PLANS_TO_UPDATE : dict string response_plan_update).

(** The loop of [retry_operation] over the remaining values of [attempt].
    Falling off the end of the loop returns [None]. *)
Fixpoint retry_loop {A} (self : helper) (operation : M A)
    (attempts : list Z) : M (option A) :=
  match attempts with
  | [] => ret None
  | attempt :: attempts =>
      try_except (response ← operation; ret (Some response)) is_ClientError (λ e,
        if decide (attempt = CONFIG_retry_attempts CONFIG - 1) then raise e
        else
          log self ("Attempt " +:+ pretty (attempt + 1)
                      +:+ " failed, retrying in "
                      +:+ pretty (CONFIG_retry_delay CONFIG) +:+ "s: "
                      +:+ str_exn e) "WARN";;
          sleep (CONFIG_retry_delay CONFIG);;
          retry_loop self operation attempts)
  end.

(** [operation] stands for the call [operation( *args, **kwargs)]. *)
Definition retry_operation {A} (self : helper) (operation : M A)
    : M (option A) :=
  retry_loop self operation (seqZ 0 (CONFIG_retry_attempts CONFIG)).

Definition contact_exists (self : helper) (alias : string)
    : M (bool * string) :=
  contact_arn ← get_contact_arn w self alias;
  if dry_run self then
    log self ("[DRY RUN] Would check if contact exists: " +:+ alias) "DEBUG";;
    ret (false, contact_arn)
  else
    try_except
      (call w (ssm_contacts_get_contact contact_arn);;
       ret (true, contact_arn))
      is_ClientError (λ e,
        if decide (error_code e = "ResourceNotFoundException")
        then ret (false, contact_arn)
        else raise e).

(** [{channel['Type']: channel['ContactChannelArn'] for channel in ...}] *)
Definition channels_by_type (ContactChannels : list contact_channel)
    : dict string string :=
  foldl (λ d channel, dict_set (Type_ channel) (ContactChannelArn channel) d)
        [] ContactChannels.

Definition get_existing_contact_channels (self : helper)
    (contact_arn : string) : M (dict string string) :=
  if dry_run self then
    log self ("[DRY RUN] Would list contact channels for " +:+ contact_arn)
        "DEBUG";;
    ret []
  else
    try_except
      (ContactChannels ← call w (ssm_contacts_list_contact_channels contact_arn);
       ret (channels_by_type ContactChannels))
      is_ClientError (λ _, ret []).

Definition create_contact_channel (self : helper) (contact_arn : string)
    (channel_config : channel_config) (contact_name : string)
    : M (option string) :=
  let channel_type := type channel_config in
  let channel_address := address channel_config in
  if dry_run self then
    log self ("[DRY RUN] Would create " +:+ channel_type +:+ " channel for "
                +:+ contact_name +:+ ": " +:+ channel_address) "DEBUG";;
    ret None
  else
    try_except
      (response ← retry_operation self
         (call w (ssm_contacts_create_contact_channel contact_arn
                    (contact_name +:+ " - " +:+ channel_type)
                    channel_type channel_address));
       log self ("Created " +:+ channel_type +:+ " channel for "
                   +:+ contact_name) "INFO";;
       ContactChannelArn ← subscript response;
       ret (Some ContactChannelArn))
      is_ClientError (λ e,
        if decide (error_code e = "ConflictException") then
          log self (channel_type +:+ " channel already exists for "
                      +:+ contact_name) "INFO";;
          existing_channels ← get_existing_contact_channels self contact_arn;
          ret (dict_get channel_type existing_channels)
        else
          log self ("Error creating " +:+ channel_type +:+ " channel for "
                      +:+ contact_name +:+ ": " +:+ str_exn e) "ERROR";;
          raise e).

(** One round of the loop over [details["channels"]] (step 2 of
    [create_or_update_contact]), for a contact that existed already. *)
Definition use_or_create_channel (self : helper) (alias contact_arn : string)
    (details : contact_details) (existing_channels : dict string string)
    (channel_arns_by_type : dict string string)
    (channel_config : channel_config) : M (dict string string) :=
  let channel_type := type channel_config in
  match dict_get channel_type existing_channels with
  | Some existing =>
      log self ("Using existing " +:+ channel_type +:+ " channel for "
                  +:+ alias) "INFO";;
      ret (dict_set channel_type existing channel_arns_by_type)
  | None =>
      channel_arn ← create_contact_channel self contact_arn channel_config
                       (name details);
      if truthy channel_arn
      then ret (dict_set channel_type (default "" channel_arn)
                          channel_arns_by_type)
      else ret channel_arns_by_type
  end.

(** The same for a contact that was just created. *)
Definition create_channel (self : helper) (contact_arn : string)
    (details : contact_details)
    (channel_arns_by_type : dict string string)
    (channel_config : channel_config) : M (dict string string) :=
  let channel_type := type channel_config in
  channel_arn ← create_contact_channel self contact_arn channel_config
                   (name details);
  if truthy channel_arn
  then ret (dict_set channel_type (default "" channel_arn)
                      channel_arns_by_type)
  else ret channel_arns_by_type.

(** [repr] of a channel dictionary of the configuration table. *)
Definition repr_channel_config (ch_config : channel_config) : string :=
  "{'type': " +:+ repr_str (type ch_config)
    +:+ ", 'address': " +:+ repr_str (address ch_config)
    +:+ match engagement_time_minutes ch_config with
        | Some m => ", 'engagement_time_minutes': " +:+ pretty m
        | None => ""
        end
    +:+ "}".

(** Step 3 of [create_or_update_contact], entered when
    [channel_arns_by_type] is not empty. *)
Definition update_contact_plan (self : helper) (alias contact_arn : string)
    (details : contact_details) (channel_arns_by_type : dict string string)
    : M unit :=
  log self ("Raw channel configuration from CONTACTS_DEFINITION for "
              +:+ alias +:+ ":") "DEBUG";;
  for_each (enumerate (channels details)) (λ '(i, ch_config),
    log self ("  - Channel " +:+ pretty i +:+ ": " +:+ type ch_config
                +:+ ": engagement_time_minutes = "
                +:+ match engagement_time_minutes ch_config with
                    | Some m => pretty m
                    | None => "NOT_SET"
                    end) "DEBUG";;
    log self ("    Full config: " +:+ repr_channel_config ch_config) "DEBUG");;
  log self ("Channel ARN mapping for " +:+ alias +:+ ":") "DEBUG";;
  for_each channel_arns_by_type (λ '(ch_type, arn),
    log self ("  - " +:+ ch_type +:+ ": " +:+ arn) "DEBUG");;
  let channel_info := channel_info (channels details) channel_arns_by_type in
  let engagement_groups := engagement_groups channel_info in
  let sorted_engagement_times := sorted_engagement_times engagement_groups in
  log self ("Generating corrected engagement plan for " +:+ alias +:+ ":")
      "DEBUG";;
  for_each (initial_wait sorted_engagement_times) (λ st,
    log self ("  - Stage 1: Initial wait of "
                +:+ pretty (DurationInMinutes st)
                +:+ " min (no engagement).") "DEBUG");;
  for_each (enumerate sorted_engagement_times) (λ '(i, engagement_time),
    let duration := stage_duration sorted_engagement_times i engagement_time in
    let channels_at_this_time := channels_at engagement_groups engagement_time in
    let channel_types := channel_type <$> channels_at_this_time in
    log self ("  - Stage "
                +:+ pretty (length (initial_wait sorted_engagement_times)
                            + i + 1)%nat
                +:+ ": Engages " +:+ join ", " channel_types
                +:+ " at T=" +:+ pretty engagement_time
                +:+ "min. Waits " +:+ pretty duration
                +:+ " min before next stage.") "DEBUG");;
  let plan_stages := plan_stages channel_info in
  log self ("Final engagement plan for " +:+ alias +:+ " ("
              +:+ pretty (length plan_stages) +:+ " stages):") "DEBUG";;
  for_each (enumerate plan_stages) (λ '(i, st),
    log self ("  Stage " +:+ pretty (i + 1)%nat
                +:+ ": DurationInMinutes=" +:+ pretty (DurationInMinutes st)
                +:+ ", Targets=" +:+ pretty (length (Targets st))) "DEBUG");;
  try_except
    (retry_operation self
       (call w (ssm_contacts_update_contact contact_arn plan_stages));;
     log self ("Updated contact plan for " +:+ alias +:+ " with "
                 +:+ pretty (length plan_stages)
                 +:+ " engagement stage(s)") "INFO";;
     for_fold (enumerate (zip sorted_engagement_times plan_stages)) 0
       (λ cumulative_time '(i, (engagement_time, st)),
          let cumulative_time := cumulative_time + DurationInMinutes st in
          let channels_at_time := channels_at engagement_groups engagement_time in
          let channel_types := channel_type <$> channels_at_time in
          log self ("  Stage " +:+ pretty (i + 1)%nat +:+ ": "
                      +:+ join ", " channel_types
                      +:+ " - Wait " +:+ pretty (DurationInMinutes st)
                      +:+ " min, engage at " +:+ pretty cumulative_time
                      +:+ " min total") "DEBUG";;
          ret cumulative_time);;
     ret tt)
    is_ClientError (λ e,
      log self ("Warning: Could not update contact plan for " +:+ alias
                  +:+ ": " +:+ str_exn e) "WARN").

(** Step 1 of [create_or_update_contact]: the contact is created, with an
    empty plan, unless it exists. *)
Definition ensure_contact (self : helper) (alias : string)
    (details : contact_details) (existing_contact : bool)
    (contact_arn : string) : M string :=
  if existing_contact then
    log self ("Contact already exists: " +:+ alias) "INFO";;
    ret contact_arn
  else
    response ← retry_operation self
      (call w (ssm_contacts_create_contact alias (name details)
                 "PERSONAL" []));
    contact_arn ← subscript response;
    log self ("Created contact: " +:+ alias) "INFO";;
    ret contact_arn.

(** Step 2: the loop over [details["channels"]] that fills
    [channel_arns_by_type]. *)
Definition contact_channels (self : helper) (alias contact_arn : string)
    (details : contact_details) (existing_contact : bool)
    : M (dict string string) :=
  if existing_contact then
    existing_channels ← get_existing_contact_channels self contact_arn;
    for_fold (channels details) []
      (use_or_create_channel self alias contact_arn details existing_channels)
  else
    for_fold (channels details) [] (create_channel self contact_arn details).

Definition create_or_update_contact (self : helper) (alias : string)
    (details : contact_details) : M string :=
  try_except
    (if dry_run self then
       contact_arn ← get_contact_arn w self alias;
       log self ("[DRY RUN] Would create/update contact: " +:+ alias) "DEBUG";;
       ret contact_arn
     else
       '(existing_contact, contact_arn) ← contact_exists self alias;
       contact_arn ←
         ensure_contact self alias details existing_contact contact_arn;
       channel_arns_by_type ←
         contact_channels self alias contact_arn details existing_contact;
       (* Step 3: contact plan *)
       (if bool_decide (channel_arns_by_type ≠ []) then
          update_contact_plan self alias contact_arn details
            channel_arns_by_type
        else
          log self ("No channels available for " +:+ alias
                      +:+ ", contact created without plan") "WARN");;
       ret contact_arn)
    is_ClientError (λ e,
      log self ("Error creating/updating contact " +:+ alias +:+ ": "
                  +:+ str_exn e) "ERROR";;
      raise e).

Definition get_response_plan_arn (plan_name : string) : M string :=
  Account ← get_account_id w;
  ret ("arn:aws:ssm-incidents::" +:+ Account +:+ ":response-plan/"
          +:+ plan_name).

Definition update_response_plan (self : helper) (plan_name : string)
    (plan_details : response_plan_update)
    (contact_arns : dict string string) : M unit :=
  try_except
    (engagements ←
       for_fold (contacts_to_engage plan_details) []
         (λ engagements contact_alias,
            match dict_get contact_alias contact_arns with
            | Some contact_arn => ret (engagements ++ [contact_arn])
            | None =>
                log self ("Contact alias '" +:+ contact_alias
                            +:+ "' not found in created contacts") "WARN";;
                ret engagements
            end);
     if bool_decide (engagements = []) then
       log self ("No valid contacts found for response plan " +:+ plan_name)
           "WARN"
     else
       plan_arn ← get_response_plan_arn plan_name;
       if dry_run self then
         log self ("[DRY RUN] Would update response plan: " +:+ plan_name
                     +:+ " with " +:+ pretty (length engagements)
                     +:+ " contacts") "DEBUG"
       else
         (* get the current response plan to ensure it exists *)
         found ←
           try_except
             (call w (ssm_incidents_get_response_plan plan_arn);;
              log self ("Found existing response plan: " +:+ plan_name)
                  "DEBUG";;
              ret true)
             is_ClientError (λ e,
               if decide (error_code e = "ResourceNotFoundException") then
                 log self ("Response plan not found: " +:+ plan_name) "ERROR";;
                 ret false
               else raise e);
         if found then
           retry_operation self
             (call w (ssm_incidents_update_response_plan plan_arn engagements));;
           log self ("Updated response plan: " +:+ plan_name +:+ " with "
                       +:+ pretty (length engagements) +:+ " contact(s)")
               "INFO"
         else ret tt)
    is_ClientError (λ e,
      log self ("Error updating response plan " +:+ plan_name +:+ ": "
                  +:+ str_exn e) "ERROR";;
      raise e).

(** The checks of [validate_configuration] on one channel; [false] stands
    for the early [return False]. *)
Definition validate_channel (self : helper) (alias : string)
    (channel : channel_config) : M bool :=
  if bool_decide (type channel ∉ ["EMAIL"; "SMS"; "VOICE"]) then
    log self ("Contact " +:+ alias +:+ " has invalid channel type: "
                +:+ type channel) "ERROR";;
    ret false
  else if bool_decide (address channel = "") then
    log self ("Contact " +:+ alias +:+ " has channel without address")
        "ERROR";;
    ret false
  else
    let engagement_time := default 0 (engagement_time_minutes channel) in
    if bool_decide (engagement_time < 0) then
      log self ("Contact " +:+ alias
                  +:+ " has invalid engagement_time_minutes: "
                  +:+ pretty engagement_time) "ERROR";;
      ret false
    else ret true.

(** A loop whose body may [return False] from the enclosing function. *)
Fixpoint all_pass {A} (l : list A) (check : A → M bool) : M bool :=
  match l with
  | [] => ret true
  | x :: l' => ok ← check x; if ok then all_pass l' check else ret false
  end.

Definition validate_contact (self : helper)
    (item : string * contact_details) : M bool :=
  let '(alias, details) := item in
  if bool_decide (alias = "") then
    log self ("Invalid contact alias: " +:+ alias) "ERROR";;
    ret false
  else if bool_decide (name details = "") then
    log self ("Contact " +:+ alias +:+ " missing name") "ERROR";;
    ret false
  else if bool_decide (channels details = []) then
    log self ("Contact " +:+ alias +:+ " missing or invalid channels")
        "ERROR";;
    ret false
  else all_pass (channels details) (validate_channel self alias).

Definition validate_response_plan (self : helper)
    (item : string * response_plan_update) : M bool :=
  let '(plan_name, plan_details) := item in
  if bool_decide (plan_name = "") then
    log self "Empty response plan name found" "ERROR";;
    ret false
  else
    let contacts_to_engage := contacts_to_engage plan_details in
    if bool_decide (contacts_to_engage = []) then
      log self ("Response plan " +:+ plan_name
                  +:+ " has no contacts to engage") "ERROR";;
      ret false
    else
      all_pass contacts_to_engage (λ contact_alias,
        if dict_mem contact_alias CONTACTS_DEFINITION then ret true
        else
          log self ("Response plan " +:+ plan_name
                      +:+ " references undefined contact: "
                      +:+ contact_alias) "ERROR";;
          ret false).

Definition validate_configuration (self : helper) : M bool :=
  log self "Validating configuration..." "DEBUG";;
  ok ← all_pass CONTACTS_DEFINITION (validate_contact self);
  if ok then
    ok ← all_pass RESPONSE_PLANS_TO_UPDATE (validate_response_plan self);
    if ok then
      log self "Configuration validation passed" "INFO";;
      ret true
    else ret false
  else ret false.

Definition print_summary (self : helper) (contact_arns : dict string string)
    : M unit :=
  print (nl +:+ rule);;
  print "EXECUTION SUMMARY";;
  print rule;;
  print ("Contacts processed: " +:+ pretty (length contact_arns));;
  for_each contact_arns (λ '(alias, arn),
    contact_details ← getitem alias CONTACTS_DEFINITION;
    let engagement_times :=
      (λ ch, default 0 (engagement_time_minutes ch))
        <$> channels contact_details in
    print (" • " +:+ alias +:+ " (" +:+ name contact_details +:+ ") - "
             +:+ pretty (length (channels contact_details))
             +:+ " channel(s)");;
    print ("   Engagement times: " +:+ str_list_Z engagement_times
             +:+ " minutes"));;
  print (nl +:+ "Response plans to update: "
           +:+ pretty (length RESPONSE_PLANS_TO_UPDATE));;
  for_each RESPONSE_PLANS_TO_UPDATE (λ '(plan_name, plan_details),
    print (" • " +:+ plan_name +:+ " - "
             +:+ pretty (length (contacts_to_engage plan_details))
             +:+ " contact(s)"));;
  print (nl +:+ "Configuration:");;
  print (" • Dry run: " +:+ str_bool (CONFIG_dry_run CONFIG));;
  print (" • AWS Region: " +:+ or_default (region self) "default");;
  Account ← get_account_id w;
  print (" • AWS Account: " +:+ Account);;
  print rule.

(** ** [main] *)

(** One round of the loop over [CONTACTS_DEFINITION.items()]; the local
    variables are [contact_arns] and [success]. *)
Definition process_contact (helper : helper)
    (locals : dict string string * bool) (item : string * contact_details)
    : M (dict string string * bool) :=
  let '(contact_arns, success) := locals in
  let '(alias, details) := item in
  try_except
    (contact_arn ← create_or_update_contact helper alias details;
     if truthy (Some contact_arn)
     then ret (dict_set alias contact_arn contact_arns, success)
     else ret (contact_arns, success))
    is_Exception (λ e,
      log helper ("Failed to process contact " +:+ alias +:+ ": "
                    +:+ str_exn e) "ERROR";;
      ret (contact_arns, false)).

(** One round of the loop over [RESPONSE_PLANS_TO_UPDATE.items()]. *)
Definition process_response_plan (helper : helper)
    (contact_arns : dict string string) (success : bool)
    (item : string * response_plan_update) : M bool :=
  let '(plan_name, plan_details) := item in
  try_except
    (update_response_plan helper plan_name plan_details contact_arns;;
     ret success)
    is_Exception (λ e,
      log helper ("Failed to update response plan " +:+ plan_name +:+ ": "
                    +:+ str_exn e) "ERROR";;
      ret false).

Definition main : M bool :=
  print "Starting AWS Incident Manager Configuration Script...";;
  match client_failure w with
  | Some e =>
      print ("✗ Error initializing AWS clients: " +:+ str_exn e);;
      ret false
  | None =>
      let helper := {| dry_run := CONFIG_dry_run CONFIG;
                       verbose := CONFIG_verbose CONFIG;
                       region := CONFIG_aws_region CONFIG |} in
      log helper "AWS clients initialized" "INFO";;
      valid ← validate_configuration helper;
      if negb valid then
        log helper "Configuration validation failed. Exiting." "ERROR";;
        ret false
      else
        (if CONFIG_dry_run CONFIG
         then log helper "Running in DRY RUN mode - no changes will be made"
                  "WARN"
         else ret tt);;
        (* Step 1: create/update contacts *)
        log helper (nl +:+ "--- [1/2] Processing Contact Definitions ---")
            "INFO";;
        '(contact_arns, success) ←
          for_fold CONTACTS_DEFINITION ([], true) (process_contact helper);
        log helper "--- Contact Definitions Processed ---" "INFO";;
        (* Step 2: update response plans *)
        log helper (nl +:+ "--- [2/2] Processing Response Plan Updates ---")
            "INFO";;
        success ←
          for_fold RESPONSE_PLANS_TO_UPDATE success
            (process_response_plan helper contact_arns);
        log helper "--- Response Plan Updates Processed ---" "INFO";;
        print_summary helper contact_arns;;
        let status := if success then "completed successfully"
                      else "completed with errors" in
        log helper (nl +:+ "Script execution " +:+ status +:+ ".") "INFO";;
        ret success
  end.

(** The exit status of [python im-update1.py]: the module's last statement
    is [main()], whose result is dropped; an exception that escapes [main]
    ends the interpreter with status 1. *)
Definition script (s : state) : Z * state :=
  match main s with
  | (Returned _, s') => (0, s')
  | (Raised _, s') => (1, s')
  end.
End methods.

End Update.

(* ================================================================== *)
(** * im-delete-contacts.py *)

Module Delete.

(** [CONFIG] *)
Record config := {
  CONFIG_dry_run : bool;
  CONFIG_require_confirmation : bool;
  CONFIG_remove_from_response_plans : bool;
  CONFIG_aws_region : option string;
  CONFIG_verbose : bool
}.


Definition shipped_CONFIG : config :=
  {| CONFIG_dry_run := false;
     CONFIG_require_confirmation := false;
     CONFIG_remove_from_response_plans := true;
     CONFIG_aws_region := None;
     CONFIG_verbose := true |}.

(** The dictionary [get_contact_details] returns. *)
Record contact_info := {
  arn : string;
  alias : string;
  name : string;
  type : string
}.

(** An element of the list [get_contact_channels] returns. *)
Record channel := {
  channel_arn : string;
  channel_name : string;
  channel_type : string
}.

(** ** Methods of [AWSContactDeletionHelper] *)

Section methods.
Context (w : world) (CONFIG : config).
Context (CONTACTS_TO_DELETE : list string).

Definition get_contact_details (self : helper) (alias : string)
    : M (option contact_info) :=
  contact_arn ← get_contact_arn w self alias;
  try_except
    (response ← call w (ssm_contacts_get_contact contact_arn);
     ret (Some {| arn := contact_arn;
                  alias := alias;
                  name := default alias (DisplayName response);
                  type := default "PERSONAL" (ContactType response) |}))
    is_ClientError (λ e,
      if decide (error_code e = "ResourceNotFoundException")
      then ret None
      else raise e).

Definition get_contact_channels (self : helper) (contact_arn : string)
    : M (list channel) :=
  try_except
    (ContactChannels ← call w (ssm_contacts_list_contact_channels contact_arn);
     ret ((λ ch, {| channel_arn := ContactChannelArn ch;
                    channel_name := Name ch;
                    channel_type := Type_ ch |}) <$> ContactChannels))
    is_ClientError (λ _, ret []).

(** The loop over the plan summaries of one page.  The list
    [response_plans] outlives an exception, so the loop hands back what it
    has collected together with the exception that stopped it. *)
Fixpoint scan_page (contact_arn : string)
    (summaries : list response_plan_summary) (response_plans : list string)
    : M (list string * option exn) :=
  match summaries with
  | [] => ret (response_plans, None)
  | plan_summary :: summaries =>
      let plan_arn := summary_arn plan_summary in
      plan_details ← attempt (call w (ssm_incidents_get_response_plan plan_arn));
      match plan_details with
      | Returned engagements =>
          scan_page contact_arn summaries
            (if bool_decide (contact_arn ∈ engagements)
             then response_plans ++ [summary_name plan_summary]
             else response_plans)
      | Raised e => ret (response_plans, Some e)
      end
  end.

(** The loop over the pages. *)
Fixpoint scan_pages (contact_arn : string)
    (pages : list (list response_plan_summary)) (response_plans : list string)
    : M (list string * option exn) :=
  match pages with
  | [] => ret (response_plans, None)
  | page :: pages =>
      '(response_plans, raised) ← scan_page contact_arn page response_plans;
      match raised with
      | None => scan_pages contact_arn pages response_plans
      | Some e => ret (response_plans, Some e)
      end
  end.

Definition get_response_plans_using_contact (self : helper)
    (contact_arn : string) : M (list string) :=
  paginated ← attempt (call w ssm_incidents_list_response_plans);
  '(response_plans, raised) ←
    match paginated with
    | Returned paginated =>
        '(response_plans, raised) ←
          scan_pages contact_arn (pages paginated) [];
        ret (response_plans,
             match raised with
             | Some e => Some e
             | None => pagination_error paginated
             end)
    | Raised e => ret ([], Some e)
    end;
  match raised with
  | None => ret response_plans
  | Some e =>
      if is_ClientError e then
        log self ("Error listing response plans: " +:+ str_exn e) "ERROR";;
        ret response_plans
      else raise e
  end.

Definition remove_contact_from_response_plan (self : helper)
    (plan_name contact_arn : string) : M unit :=
  if dry_run self then
    log self ("[DRY RUN] Would remove contact from response plan: "
                +:+ plan_name) "DEBUG"
  else
    try_except
      (Account ← get_account_id w;
       let plan_arn := "arn:aws:ssm-incidents::" +:+ Account
                         +:+ ":response-plan/" +:+ plan_name in
       current_engagements ← call w (ssm_incidents_get_response_plan plan_arn);
       let new_engagements :=
         filter (λ eng, eng ≠ contact_arn) current_engagements in
       if bool_decide (length new_engagements < length current_engagements)%nat
       then
         call w (ssm_incidents_update_response_plan plan_arn new_engagements);;
         log self ("Removed contact from response plan: " +:+ plan_name) "INFO"
       else
         log self ("Contact not found in response plan: " +:+ plan_name) "WARN")
      is_ClientError (λ e,
        log self ("Error updating response plan " +:+ plan_name +:+ ": "
                    +:+ str_exn e) "ERROR").

Definition delete_contact_channel (self : helper) (channel_arn : string)
    (channel_info : channel) : M unit :=
  if dry_run self then
    log self ("[DRY RUN] Would delete " +:+ channel_type channel_info
                +:+ " channel: " +:+ channel_name channel_info) "DEBUG"
  else
    try_except
      (call w (ssm_contacts_delete_contact_channel channel_arn);;
       log self ("Deleted " +:+ channel_type channel_info +:+ " channel: "
                   +:+ channel_name channel_info) "INFO")
      is_ClientError (λ e,
        log self ("Error deleting channel " +:+ channel_name channel_info
                    +:+ ": " +:+ str_exn e) "ERROR").

Definition delete_contact (self : helper) (alias : string) : M bool :=
  contact_info ← get_contact_details self alias;
  match contact_info with
  | None =>
      log self ("Contact not found: " +:+ alias) "WARN";;
      ret false
  | Some contact_info =>
      log self (nl +:+ "Processing contact: " +:+ alias +:+ " ("
                  +:+ name contact_info +:+ ")") "INFO";;
      (* contact channels *)
      channels ← get_contact_channels self (arn contact_info);
      (if bool_decide (channels ≠ []) then
         log self ("Found " +:+ pretty (length channels)
                     +:+ " channel(s) for " +:+ alias +:+ ":") "INFO";;
         for_each channels (λ channel,
           log self ("  - " +:+ channel_type channel +:+ ": "
                       +:+ channel_name channel) "DEBUG")
       else ret tt);;
      (* response plans *)
      (if CONFIG_remove_from_response_plans CONFIG then
         response_plans ←
           get_response_plans_using_contact self (arn contact_info);
         if bool_decide (response_plans ≠ []) then
           log self ("Contact is used in " +:+ pretty (length response_plans)
                       +:+ " response plan(s):") "INFO";;
           for_each response_plans (λ plan,
             log self ("  - " +:+ plan) "DEBUG");;
           for_each response_plans (λ plan,
             remove_contact_from_response_plan self plan (arn contact_info))
         else ret tt
       else ret tt);;
      (* delete the channels *)
      for_each channels (λ channel,
        delete_contact_channel self (channel_arn channel) channel);;
      (* delete the contact itself *)
      if dry_run self then
        log self ("[DRY RUN] Would delete contact: " +:+ alias) "DEBUG";;
        ret true
      else
        try_except
          (call w (ssm_contacts_delete_contact (arn contact_info));;
           log self ("Deleted contact: " +:+ alias) "INFO";;
           ret true)
          is_ClientError (λ e,
            log self ("Error deleting contact " +:+ alias +:+ ": "
                        +:+ str_exn e) "ERROR";;
            ret false)
  end.

Definition print_summary (self : helper)
    (contacts_processed : dict string bool) : M unit :=
  print (nl +:+ rule);;
  (if dry_run self then print "DRY RUN SUMMARY" else print "DELETION SUMMARY");;
  print rule;;
  let successful :=
    length (filter (λ success, success = true) (dict_values contacts_processed)) in
  let failed := (length contacts_processed - successful)%nat in
  print ("Total contacts processed: " +:+ pretty (length contacts_processed));;
  print ("  • " +:+ (if dry_run self then "Would delete" else "Deleted")
           +:+ ": " +:+ pretty successful);;
  print ("  • Failed: " +:+ pretty failed);;
  (if bool_decide (0 < failed)%nat then
     print (nl +:+ "Failed deletions:");;
     for_each contacts_processed (λ '(alias, success),
       if negb success then print ("  • " +:+ alias) else ret tt)
   else ret tt);;
  print (nl +:+ "Configuration:");;
  print ("  • Mode: " +:+ (if dry_run self then "DRY RUN" else "LIVE DELETION"));;
  print ("  • AWS Region: " +:+ or_default (region self) "default");;
  Account ← get_account_id w;
  print ("  • AWS Account: " +:+ Account);;
  (if dry_run self && bool_decide (0 < successful)%nat then
     print (nl +:+ "To perform actual deletion:");;
     print "  1. Set CONFIG['dry_run'] = False";;
     print "  2. Run the script again"
   else ret tt);;
  print rule.

(** ** [main] *)

Definition confirm_deletion (contacts : list string) : M bool :=
  print (nl +:+ line "!");;
  print "WARNING: You are about to delete the following contacts:";;
  print (line "!");;
  for_each contacts (λ contact, print ("  • " +:+ contact));;
  print (nl +:+ "Total contacts to delete: " +:+ pretty (length contacts));;
  if CONFIG_dry_run CONFIG then
    print (nl +:+ "[DRY RUN MODE] No actual deletions will be performed.");;
    ret true
  else
    print (nl +:+ "This action cannot be undone!");;
    response ← input w (nl +:+ "Type 'DELETE' to confirm deletion: ");
    ret (bool_decide (response = "DELETE")).

(** One round of the loop over [CONTACTS_TO_DELETE]; the local variable is
    [contacts_processed]. *)
Definition process_contact (helper : helper)
    (contacts_processed : dict string bool) (alias : string)
    : M (dict string bool) :=
  try_except
    (success ← delete_contact helper alias;
     ret (dict_set alias success contacts_processed))
    is_Exception (λ e,
      log helper ("Failed to process contact " +:+ alias +:+ ": "
                    +:+ str_exn e) "ERROR";;
      ret (dict_set alias false contacts_processed)).

Definition main : M bool :=
  print "AWS Incident Manager - Contact Deletion Script";;
  print "Version: 1.1";;
  if bool_decide (CONTACTS_TO_DELETE = []) then
    print (nl +:+ "✗ No contacts specified for deletion.");;
    print "  Edit CONTACTS_TO_DELETE in this script to specify contacts.";;
    ret false
  else
    match client_failure w with
    | Some e =>
        print ("✗ Error initializing AWS clients: " +:+ str_exn e);;
        ret false
    | None =>
        let helper := {| dry_run := CONFIG_dry_run CONFIG;
                         verbose := CONFIG_verbose CONFIG;
                         region := CONFIG_aws_region CONFIG |} in
        log helper "AWS clients initialized" "INFO";;
        (if CONFIG_dry_run CONFIG then
           print (nl +:+ rule);;
           print "DRY RUN MODE ENABLED";;
           print rule;;
           print "No actual changes will be made to AWS resources.";;
           print "To perform actual deletion:";;
           print "  1. Set CONFIG['dry_run'] = False";;
           print "  2. Run the script again";;
           print (rule +:+ nl)
         else ret tt);;
        confirmed ←
          (if CONFIG_require_confirmation CONFIG
           then confirm_deletion CONTACTS_TO_DELETE
           else ret true);
        if negb confirmed then
          log helper "Deletion cancelled by user" "WARN";;
          ret false
        else
          log helper (nl +:+ "Starting contact deletion process...") "INFO";;
          contacts_processed ←
            for_fold CONTACTS_TO_DELETE [] (process_contact helper);
          print_summary helper contacts_processed;;
          ret (forallb id (dict_values contacts_processed))
    end.

(** The exit status of [python im-delete-contacts.py]:
    [success = main(); exit(0 if success else 1)]; an exception that
    escapes [main] ends the interpreter with status 1. *)
Definition script (s : state) : Z * state :=
  match main s with
  | (Returned success, s') => (if success then 0 else 1, s')
  | (Raised _, s') => (1, s')
  end.
End methods.

End Delete.

(* ================================================================== *)
(** * Worlds used in the examples *)

(** A remote service on which every call succeeds; no contact exists yet. *)
Definition fresh_account (tr : list event) (c : api_call)
    : outcome (response_of c) :=
  match c with
  | sts_get_caller_identity => Returned "123456789012"
  | ssm_contacts_get_contact _ =>
      Raised (ClientError "ResourceNotFoundException" "contact not found")
  | ssm_contacts_create_contact Alias _ _ _ => Returned ("contact/" +:+ Alias)
  | ssm_contacts_update_contact _ _ => Returned tt
  | ssm_contacts_delete_contact _ => Returned tt
  | ssm_contacts_list_contact_channels _ => Returned []
  | ssm_contacts_create_contact_channel ContactId _ Type_ _ =>
      Returned (ContactId +:+ "/" +:+ Type_)
  | ssm_contacts_delete_contact_channel _ => Returned tt
  | ssm_incidents_get_response_plan _ => Returned []
  | ssm_incidents_update_response_plan _ _ => Returned tt
  | ssm_incidents_list_response_plans =>
      Returned {| pages := []; pagination_error := None |}
  end.

Definition world_of
    (respond : list event → ∀ c : api_call, outcome (response_of c)) : world :=
  {| respond := respond;
     session_region_name := None;
     client_failure := None;
     typed := λ _, "DELETE" |}.

Definition fresh_world : world := world_of fresh_account.

(** An account in which the contact exists, with an e-mail channel, and is
    engaged by one response plan. *)
Definition populated_account (tr : list event) (c : api_call)
    : outcome (response_of c) :=
  match c with
  | ssm_contacts_get_contact _ =>
      Returned {| DisplayName := Some "A S Dasd"; ContactType := Some "PERSONAL" |}
  | ssm_contacts_list_contact_channels ContactId =>
      Returned [ {| ContactChannelArn := ContactId +:+ "/EMAIL";
                    Name := "A S Dasd - EMAIL"; Type_ := "EMAIL" |} ]
  | ssm_incidents_list_response_plans =>
      Returned {| pages := [[ {| summary_arn := "plan/high";
                                 summary_name := "high" |} ]];
                  pagination_error := None |}
  | ssm_incidents_get_response_plan _ =>
      Returned ["arn:aws:ssm-contacts:us-east-1:123456789012:contact/asdasd"]
  | c => fresh_account tr c
  end.

Definition populated_world : world := world_of populated_account.

Definition dry_helper : helper :=
  {| dry_run := true; verbose := true; region := None |}.

Definition live_helper : helper :=
  {| dry_run := false; verbose := true; region := None |}.

Definition dry_update_CONFIG : Update.config :=
  {| Update.CONFIG_dry_run := true;
     Update.CONFIG_retry_attempts := 3;
     Update.CONFIG_retry_delay := 2;
     Update.CONFIG_aws_region := None;
     Update.CONFIG_verbose := true |}.

Definition dry_delete_CONFIG : Delete.config :=
  {| Delete.CONFIG_dry_run := true;
     Delete.CONFIG_require_confirmation := false;
     Delete.CONFIG_remove_from_response_plans := true;
     Delete.CONFIG_aws_region := None;
     Delete.CONFIG_verbose := true |}.

(** No connection: every call fails on the client side, with an exception
    that is not a [ClientError]. *)
Definition unreachable_world : world :=
  world_of (λ _ _, Raised (OtherException "Could not connect to the endpoint URL")).


(** The channel exists already and the service is throttling the listing:
    creating a channel is a conflict, listing the channels fails. *)
Definition conflict_and_throttled_account (tr : list event) (c : api_call)
    : outcome (response_of c) :=
  match c with
  | ssm_contacts_create_contact_channel _ _ _ _ =>
      Raised (ClientError "ConflictException" "channel already exists")
  | ssm_contacts_list_contact_channels _ =>
      Raised (ClientError "ThrottlingException" "rate exceeded")
  | c => fresh_account tr c
  end.

Definition conflict_and_throttled_world : world :=
  world_of conflict_and_throttled_account.

Definition email_channel : Update.channel_config :=
  {| Update.type := "EMAIL"; Update.address := "lmhung@vinamilk.com.vn";
     Update.engagement_time_minutes := Some 15 |}.

Definition sms_channel : Update.channel_config :=
  {| Update.type := "SMS"; Update.address := "+84984001202";
     Update.engagement_time_minutes := Some 15 |}.

(** The caller is not allowed to create the contact [dnkhanh]. *)
Definition one_denied_account (tr : list event) (c : api_call)
    : outcome (response_of c) :=
  match c as c' return outcome (response_of c') with
  | ssm_contacts_create_contact Alias DisplayName Type_ Plan =>
      if decide (Alias = "dnkhanh")
      then Raised (ClientError "AccessDeniedException" "not authorized")
      else fresh_account tr
             (ssm_contacts_create_contact Alias DisplayName Type_ Plan)
  | c => fresh_account tr c
  end.

Definition one_denied_world : world := world_of one_denied_account.

(** The first lookup of a contact is throttled, the later ones succeed. *)
Definition flaky_account (tr : list event) (c : api_call)
    : outcome (response_of c) :=
  match c as c' return outcome (response_of c') with
  | ssm_contacts_get_contact ContactId =>
      if existsb (λ ev, match ev with
                        | Call (ssm_contacts_get_contact _) => true
                        | _ => false
                        end) tr
      then populated_account tr (ssm_contacts_get_contact ContactId)
      else Raised (ClientError "ThrottlingException" "rate exceeded")
  | ssm_contacts_list_contact_channels _ => Returned []
  | ssm_incidents_get_response_plan _ => Returned []
  | c => fresh_account tr c
  end.

Definition flaky_world : world := world_of flaky_account.

Definition live_delete_helper : helper :=
  {| dry_run := Delete.CONFIG_dry_run Delete.shipped_CONFIG;
     verbose := Delete.CONFIG_verbose Delete.shipped_CONFIG;
     region := Delete.CONFIG_aws_region Delete.shipped_CONFIG |}.

(** The caller is not allowed to look the contact [bob] up; the other
    contacts exist. *)
Definition one_forbidden_account (tr : list event) (c : api_call)
    : outcome (response_of c) :=
  match c as c' return outcome (response_of c') with
  | ssm_contacts_get_contact ContactId =>
      if decide (ContactId
                 = "arn:aws:ssm-contacts:us-east-1:123456789012:contact/bob")
      then Raised (ClientError "AccessDeniedException" "not authorized")
      else populated_account tr (ssm_contacts_get_contact ContactId)
  | c => populated_account tr c
  end.

Definition one_forbidden_world : world := world_of one_forbidden_account.

(** A live deletion that asks for confirmation. *)
Definition confirming_CONFIG : Delete.config :=
  {| Delete.CONFIG_dry_run := false;
     Delete.CONFIG_require_confirmation := true;
     Delete.CONFIG_remove_from_response_plans := true;
     Delete.CONFIG_aws_region := None;
     Delete.CONFIG_verbose := true |}.

(* ================================================================== *)
(** * Notions used to state the properties *)

(** The state reached from [s] by the events [evs]. *)
Definition extend (evs : list event) (s : state) : state :=
  {| account_id := account_id s; trace := trace s ++ evs |}.

(** Events that leave the remote state as it is. *)
Definition quiet (ev : event) : bool :=
  match ev with
  | Call c => negb (mutating c)
  | _ => true
  end.

Definition anything (ev : event) : bool := true.

Definition follows (allowed : event → bool) (s s' : state) : Prop :=
  (∃ evs, trace s' = trace s ++ evs ∧ Forall (λ ev, allowed ev = true) evs)
  ∧ (∀ a, account_id s = Some a → account_id s' = Some a).

Definition respects (allowed : event → bool) {A} (m : M A) : Prop :=
  ∀ s, follows allowed s (snd (m s)).


(** Either the helper runs dry, or every event is allowed anyway. *)
Definition permitted (allowed : event → bool) (dry : bool) : Prop :=
dry = true ∨ ∀ ev, allowed ev = true.


(** A run performs no mutating call: whatever it appends to the trace
    contains no call that changes remote state. *)
Definition no_mutating_call {X} (run : state → X * state) : Prop :=
  ∀ s, ∃ evs, trace (snd (run s)) = trace s ++ evs
              ∧ ∀ c, Call c ∈ evs → mutating c = false.


(** What a failed attempt that is retried leaves in the trace: the call,
    the warning, the sleep of the configured delay. *)
Definition retried (CONFIG : Update.config) (c : api_call) (attempt : Z) (e : exn) : list event :=
  [ Call c;
    Print ("! Attempt " +:+ pretty (attempt + 1) +:+ " failed, retrying in "
             +:+ pretty (Update.CONFIG_retry_delay CONFIG) +:+ "s: " +:+ str_exn e);
    Sleep (Update.CONFIG_retry_delay CONFIG) ].

(** The same for a run of failed attempts, the first numbered [attempt]. *)
Fixpoint failed_attempts (CONFIG : Update.config) (c : api_call) (attempt : Z) (errs : list exn)
    : list event :=
  match errs with
  | [] => []
  | e :: errs => retried CONFIG c attempt e
            ++ failed_attempts CONFIG c (attempt + 1) errs
  end.


(** ** Work lists *)

Definition returned {A} (r : outcome A) : bool :=
  match r with Returned _ => true | Raised _ => false end.

(** An item of the deletion work list succeeded when [delete_contact]
    returned [True]. *)
Definition succeeded (r : outcome bool) : bool :=
  match r with Returned true => true | _ => false end.

(** The state a round of a work list ends in: the state its item left,
    and, when the item raised, the error line that tells so. *)
Definition caught {A} (message : exn → string) (run : outcome A * state)
    : state :=
  match run with
  | (Returned _, s) => s
  | (Raised e, s) => extend [Print ("✗ " +:+ message e)] s
  end.

Definition failed_to_process (alias : string) (e : exn) : string :=
  "Failed to process contact " +:+ alias +:+ ": " +:+ str_exn e.

Definition failed_to_update (plan_name : string) (e : exn) : string :=
  "Failed to update response plan " +:+ plan_name +:+ ": " +:+ str_exn e.

(** What [delete_contact] does for each alias of the work list, in order:
    each alias is tried in the state in which the round of the alias before
    it ended. *)
Fixpoint deletions (w : world) (CONFIG : Delete.config) (helper : helper)
    (l : list string) (s : state) : list (string * outcome bool) :=
  match l with
  | [] => []
  | alias :: l =>
      let run := Delete.delete_contact w CONFIG helper alias s in
      (alias, fst run)
        :: deletions w CONFIG helper l (caught (failed_to_process alias) run)
  end.

(** The state in which the last round ends. *)
Definition after_deletions (w : world) (CONFIG : Delete.config)
    (helper : helper) (l : list string) (s : state) : state :=
  foldl (λ s alias,
           caught (failed_to_process alias)
             (Delete.delete_contact w CONFIG helper alias s)) s l.

(** [contacts_processed] once these outcomes are recorded. *)
Definition record_deletions (contacts_processed : dict string bool)
    (rs : list (string * outcome bool)) : dict string bool :=
  foldl (λ d '(alias, r), dict_set alias (succeeded r) d) contacts_processed rs.

(** The same for the contacts of the create/update script. *)
Fixpoint contact_updates (w : world) (CONFIG : Update.config) (helper : helper)
    (l : list (string * Update.contact_details)) (s : state)
    : list (string * outcome string) :=
  match l with
  | [] => []
  | (alias, details) :: l =>
      let run := Update.create_or_update_contact w CONFIG helper alias details s in
      (alias, fst run)
        :: contact_updates w CONFIG helper l
             (caught (failed_to_process alias) run)
  end.

Definition after_contact_updates (w : world) (CONFIG : Update.config)
    (helper : helper) (l : list (string * Update.contact_details)) (s : state)
    : state :=
  foldl (λ s '(alias, details),
           caught (failed_to_process alias)
             (Update.create_or_update_contact w CONFIG helper alias details s))
        s l.

(** [contact_arns] and [success] once these outcomes are recorded. *)
Definition record_updates (locals : dict string string * bool)
    (rs : list (string * outcome string)) : dict string string * bool :=
  foldl (λ '(contact_arns, success) '(alias, r),
           match r with
           | Returned contact_arn =>
               (if truthy (Some contact_arn)
                then dict_set alias contact_arn contact_arns
                else contact_arns, success)
           | Raised _ => (contact_arns, false)
           end) locals rs.

(** And for its response plans. *)
Fixpoint plan_updates (w : world) (CONFIG : Update.config) (helper : helper)
    (contact_arns : dict string string)
    (l : list (string * Update.response_plan_update)) (s : state)
    : list (string * outcome unit) :=
  match l with
  | [] => []
  | (plan_name, plan_details) :: l =>
      let run := Update.update_response_plan w CONFIG helper plan_name
                   plan_details contact_arns s in
      (plan_name, fst run)
        :: plan_updates w CONFIG helper contact_arns l
             (caught (failed_to_update plan_name) run)
  end.

Definition after_plan_updates (w : world) (CONFIG : Update.config)
    (helper : helper) (contact_arns : dict string string)
    (l : list (string * Update.response_plan_update)) (s : state) : state :=
  foldl (λ s '(plan_name, plan_details),
           caught (failed_to_update plan_name)
             (Update.update_response_plan w CONFIG helper plan_name
                plan_details contact_arns s))
        s l.

(** What [main] of the deletion script prints before it asks for
    confirmation, and what [main] of the create/update script prints
    before its first loop when the configuration is valid. *)
Definition deletion_banner (CONFIG : Delete.config) : list event :=
  [ Print "AWS Incident Manager - Contact Deletion Script";
    Print "Version: 1.1";
    Print "✓ AWS clients initialized" ]
  ++ if Delete.CONFIG_dry_run CONFIG then
       [ Print (nl +:+ rule);
         Print "DRY RUN MODE ENABLED";
         Print rule;
         Print "No actual changes will be made to AWS resources.";
         Print "To perform actual deletion:";
         Print "  1. Set CONFIG['dry_run'] = False";
         Print "  2. Run the script again";
         Print (rule +:+ nl) ]
     else [].

Definition update_banner (CONFIG : Update.config) : list event :=
  [ Print "Starting AWS Incident Manager Configuration Script...";
    Print "✓ AWS clients initialized" ]
  ++ (if Update.CONFIG_verbose CONFIG
      then [Print "→ Validating configuration..."] else [])
  ++ [ Print "✓ Configuration validation passed" ]
  ++ (if Update.CONFIG_dry_run CONFIG
      then [Print "! Running in DRY RUN mode - no changes will be made"]
      else [])
  ++ [ Print ("✓ " +:+ nl +:+ "--- [1/2] Processing Contact Definitions ---") ].

(** The lines of the console. *)
Definition printed (tr : list event) : list string :=
  omap (λ ev, match ev with Print line => Some line | _ => None end) tr.

(** The lines printed from the line [title] on. *)
Fixpoint printed_from (title : string) (tr : list event) : list string :=
  match tr with
  | [] => []
  | Print line :: tr' =>
      if decide (line = title) then printed tr else printed_from title tr'
  | _ :: tr' => printed_from title tr'
  end.

(** ** Runs and the memoised account identifier *)

(** A computation memoises the account identifier when every run of it
    that returns leaves the identifier memoised. *)
Definition memoises {A} (m : M A) : Prop :=
  ∀ s a s', m s = (Returned a, s') → is_Some (account_id s').

(** A computation is steady when, started with the account identifier
    memoised, it returns and leaves the identifier memoised. *)
Definition steady {A} (m : M A) : Prop :=
  ∀ s, is_Some (account_id s) →
       ∃ a s', m s = (Returned a, s') ∧ is_Some (account_id s').

(** A computation that returns from every state. *)
Definition total {A} (m : M A) : Prop :=
  ∀ s, ∃ a s', m s = (Returned a, s').


(** ** Valid configurations

    What [validate_configuration] looks for, check by check. *)

Definition valid_channel (channel : Update.channel_config) : Prop :=
  Update.type channel ∈ ["EMAIL"; "SMS"; "VOICE"]
  ∧ Update.address channel ≠ ""
  ∧ 0 ≤ default 0 (Update.engagement_time_minutes channel).

Definition valid_contact (item : string * Update.contact_details) : Prop :=
  item.1 ≠ ""
  ∧ Update.name item.2 ≠ ""
  ∧ Update.channels item.2 ≠ []
  ∧ Forall valid_channel (Update.channels item.2).

Definition valid_response_plan
    (CONTACTS_DEFINITION : dict string Update.contact_details)
    (item : string * Update.response_plan_update) : Prop :=
  item.1 ≠ ""
  ∧ Update.contacts_to_engage item.2 ≠ []
  ∧ Forall (λ contact_alias,
              is_Some (dict_get contact_alias CONTACTS_DEFINITION))
      (Update.contacts_to_engage item.2).

Definition valid_configuration
    (CONTACTS_DEFINITION : dict string Update.contact_details)
    (RESPONSE_PLANS_TO_UPDATE : dict string Update.response_plan_update)
    : Prop :=
  Forall valid_contact CONTACTS_DEFINITION
  ∧ Forall (valid_response_plan CONTACTS_DEFINITION) RESPONSE_PLANS_TO_UPDATE.

(** A check decides [P] when it returns whether [P] holds and does nothing
    but print: nothing when it returns [True], the error it found when it
    returns [False]. *)
Definition checks (P : Prop) (check : M bool) : Prop :=
  ∀ s, ∃ ok lines,
    check s = (Returned ok, extend (Print <$> lines) s)
    ∧ (ok = true ↔ P)
    ∧ (ok = true → lines = [])
    ∧ (ok = false → ∃ message, lines = ["✗ " +:+ message]).

(** A run that makes no remote call. *)
Definition no_call {X} (run : state → X * state) : Prop :=
  ∀ s, ∃ evs, trace (snd (run s)) = trace s ++ evs
              ∧ ∀ c, Call c ∉ evs.
(* ================================================================== *)
(** * Properties of the engagement-plan builder *)

Section builder.
Import Update.
Implicit Types (g : gmap Z (list channel)) (info : list channel).
Implicit Types (ts : list Z) (plan : list stage).

(** The distinct delays of [info], ascending. *)
Local Abbreviation times info :=
  (sorted_engagement_times (engagement_groups info)).

Lemma add_to_group_lookup g ch d :
  add_to_group g ch !! d =
    if decide (engagement_time ch = d)
    then Some (default [] (g !! d) ++ [ch])
    else g !! d.
Proof.
  unfold add_to_group. cbv zeta.
  destruct (decide (engagement_time ch = d)) as [<-|Hd].
  - rewrite lookup_insert_eq. f_equal. f_equal.
    rewrite lookup_total_alt. case_decide as Hs; [done|].
    rewrite lookup_insert_eq.
    destruct (g !! engagement_time ch) eqn:E; [|done].
    exfalso. apply Hs. eauto.
  - rewrite lookup_insert_ne by done.
    case_decide; [done|]. by rewrite lookup_insert_ne.
Qed.

Lemma foldl_add_to_group_lookup info g d :
  foldl add_to_group g info !! d =
    match filter (λ ch, engagement_time ch = d) info with
    | [] => g !! d
    | chs => Some (default [] (g !! d) ++ chs)
    end.
Proof.
  revert g. induction info as [|ch info IH]; intros g; simpl; [done|].
  rewrite IH, add_to_group_lookup, filter_cons.
  case_decide as Hd; simpl.
  - destruct (filter _ info); simpl; [done|].
    by rewrite <- app_assoc.
  - done.
Qed.

(** The table maps every delay that occurs to the channels sharing it, in
    the order of the input, and nothing else. *)
Lemma engagement_groups_lookup info d :
  engagement_groups info !! d =
    match filter (λ ch, engagement_time ch = d) info with
    | [] => None
    | chs => Some chs
    end.
Proof.
  unfold engagement_groups. rewrite foldl_add_to_group_lookup.
  by rewrite lookup_empty.
Qed.

Lemma channels_at_groups info d :
  channels_at (engagement_groups info) d
  = filter (λ ch, engagement_time ch = d) info.
Proof.
  unfold channels_at. rewrite lookup_total_alt, engagement_groups_lookup.
  by destruct (filter _ info).
Qed.

Lemma elem_of_dom_engagement_groups info d :
  d ∈ dom (engagement_groups info) ↔ ∃ ch, ch ∈ info ∧ engagement_time ch = d.
Proof.
  rewrite elem_of_dom, engagement_groups_lookup. split.
  - intros [chs Hchs].
    destruct (filter _ info) as [|ch chs'] eqn:E; [done|].
    assert (ch ∈ filter (λ ch, engagement_time ch = d) info) as Hin
      by (rewrite E; left).
    apply list_elem_of_filter in Hin as [? ?]. eauto.
  - intros (ch & Hin & Hd).
    assert (ch ∈ filter (λ ch, engagement_time ch = d) info) as Hf
      by (by apply list_elem_of_filter).
    destruct (filter _ info); [by apply elem_of_nil in Hf | eauto].
Qed.

Lemma elem_of_sorted_engagement_times g d :
  d ∈ sorted_engagement_times g ↔ d ∈ dom g.
Proof.
  unfold sorted_engagement_times.
  rewrite merge_sort_Permutation. apply elem_of_elements.
Qed.

Lemma StronglySorted_le_NoDup_lt ts :
  StronglySorted Z.le ts → NoDup ts → StronglySorted Z.lt ts.
Proof.
  induction 1 as [|t ts Hs IH Hall]; intros Hnd; constructor.
  - apply IH. by apply NoDup_cons in Hnd as [_ ?].
  - apply NoDup_cons in Hnd as [Hnotin _].
    rewrite Forall_forall in Hall |- *. intros t' Hin.
    specialize (Hall t' Hin).
    assert (t ≠ t') by (intros ->; done). lia.
Qed.

Lemma NoDup_sorted_engagement_times g : NoDup (sorted_engagement_times g).
Proof.
  unfold sorted_engagement_times.
  rewrite merge_sort_Permutation. apply NoDup_elements.
Qed.

(** The distinct delays are visited in strictly ascending order. *)
Lemma sorted_engagement_times_lt g :
  StronglySorted Z.lt (sorted_engagement_times g).
Proof.
  apply StronglySorted_le_NoDup_lt; [|apply NoDup_sorted_engagement_times].
  apply (StronglySorted_merge_sort Z.le).
Qed.

Lemma total_wait_app plan1 plan2 :
  total_wait (plan1 ++ plan2) = total_wait plan1 + total_wait plan2.
Proof.
  unfold total_wait. induction plan1 as [|st plan1 IH]; simpl; lia.
Qed.

(** Waiting through the first [k] group stages leads from the first
    delay to the [k]-th. *)
Lemma total_wait_group_stages g ts k t0 t :
  ts !! 0%nat = Some t0 → ts !! k = Some t →
  total_wait (take k (imap (group_stage g ts) ts)) = t - t0.
Proof.
  intros H0. revert t. induction k as [|k IH]; intros t Hk.
  - rewrite take_0. simpl. assert (t = t0) by congruence. lia.
  - destruct (ts !! k) as [t'|] eqn:Hk'.
    2:{ apply lookup_ge_None in Hk'. apply lookup_lt_Some in Hk. lia. }
    erewrite take_S_r.
    2:{ rewrite list_lookup_imap, Hk'. reflexivity. }
    rewrite total_wait_app, (IH t') by done.
    unfold total_wait; simpl. unfold stage_duration.
    pose proof (lookup_lt_Some _ _ _ Hk) as Hlt.
    replace (k + 1)%nat with (S k) by lia.
    rewrite decide_True by done. rewrite Hk. lia.
Qed.

Lemma total_wait_initial_wait ts t0 :
  ts !! 0%nat = Some t0 → 0 ≤ t0 → total_wait (initial_wait ts) = t0.
Proof.
  destruct ts as [|t ts]; intros [= ->] Hle; simpl.
  case_decide; unfold total_wait; simpl; lia.
Qed.

(** The [k]-th group stage of a plan engages at the [k]-th delay. *)
Lemma engaged_at_group_stage g ts k t0 t :
  ts !! 0%nat = Some t0 → 0 ≤ t0 → ts !! k = Some t →
  engaged_at (initial_wait ts ++ imap (group_stage g ts) ts)
             (length (initial_wait ts) + k) = t.
Proof.
  intros H0 Hle Hk. unfold engaged_at.
  rewrite take_app_add', total_wait_app by done.
  rewrite (total_wait_initial_wait ts t0),
          (total_wait_group_stages g ts k t0 t) by done.
  lia.
Qed.

Lemma Targets_initial_wait ts st : st ∈ initial_wait ts → Targets st = [].
Proof.
  destruct ts as [|t ts]; simpl; [by intros ?%elem_of_nil|].
  case_decide; [|by intros ?%elem_of_nil].
  by intros ->%list_elem_of_singleton.
Qed.

(** A stage of the plan is either the initial wait, which has no target,
    or the group stage of one of the sorted delays. *)
Lemma plan_stages_lookup info i st :
  plan_stages info !! i = Some st →
  (i < length (initial_wait (times info)))%nat ∧ Targets st = []
  ∨ ∃ k t, i = (length (initial_wait (times info)) + k)%nat
           ∧ times info !! k = Some t
           ∧ st = group_stage (engagement_groups info) (times info) k t.
Proof.
  unfold plan_stages. cbv zeta. set (ts := times info). intros Hi.
  apply lookup_app_Some in Hi as [Hi|[Hge Hi]].
  - left. split; [by eapply lookup_lt_Some|].
    eapply Targets_initial_wait, list_elem_of_lookup_2, Hi.
  - right. exists (i - length (initial_wait ts))%nat.
    rewrite list_lookup_imap in Hi.
    destruct (ts !! _) as [t|] eqn:Ht; [|done].
    exists t. split; [lia|]. split; [done|]. by injection Hi as <-.
Qed.

Lemma plan_stages_group_lookup info k t :
  times info !! k = Some t →
  plan_stages info !! (length (initial_wait (times info)) + k)%nat
  = Some (group_stage (engagement_groups info) (times info) k t).
Proof.
  unfold plan_stages. cbv zeta. set (ts := times info). intros Hk.
  rewrite lookup_app_r by lia.
  replace (_ + k - _)%nat with k by lia.
  by rewrite list_lookup_imap, Hk.
Qed.

Lemma Targets_group_stage info ts k t :
  Targets (group_stage (engagement_groups info) ts k t) = targets_at info t.
Proof. unfold group_stage, targets_at; simpl. by rewrite channels_at_groups. Qed.

Lemma elem_of_sorted_times info t :
  t ∈ sorted_engagement_times (engagement_groups info)
  ↔ ∃ ch, ch ∈ info ∧ engagement_time ch = t.
Proof.
  by rewrite elem_of_sorted_engagement_times, elem_of_dom_engagement_groups.
Qed.

Lemma targets_at_nonempty info ch :
  ch ∈ info → targets_at info (engagement_time ch) ≠ [].
Proof.
  intros Hin. unfold targets_at.
  assert (ch ∈ filter (λ c, engagement_time c = engagement_time ch) info) as Hf
    by (by apply list_elem_of_filter).
  destruct (filter _ info); [by apply elem_of_nil in Hf | done].
Qed.

(** First delay of the sorted list is non-negative when all delays are. *)
Lemma sorted_times_nonneg info t :
  (∀ ch, ch ∈ info → 0 ≤ engagement_time ch) →
  t ∈ sorted_engagement_times (engagement_groups info) → 0 ≤ t.
Proof.
  intros Hnn (ch & Hin & <-)%elem_of_sorted_times. by apply Hnn.
Qed.

(** With non-negative delays, the group stage of each delay engages at
    that delay. *)
Lemma engaged_at_plan_stages info k t :
  (∀ ch, ch ∈ info → 0 ≤ engagement_time ch) →
  times info !! k = Some t →
  engaged_at (plan_stages info) (length (initial_wait (times info)) + k) = t.
Proof.
  intros Hnn Hk.
  destruct (times info !! 0%nat) as [t0|] eqn:H0.
  2:{ apply lookup_ge_None in H0. apply lookup_lt_Some in Hk. lia. }
  unfold plan_stages. cbv zeta.
  apply (engaged_at_group_stage _ _ k t0 t); [done| |done].
  eapply sorted_times_nonneg; [done|].
  eapply list_elem_of_lookup_2, H0.
Qed.

(** The targets of a delay, written out: one target per channel of that
    delay, in the configured order, carrying the reference of the channel
    and the fixed retry interval. *)
Lemma targets_at_references info d :
  targets_at info d
  = (λ ch, {| ContactChannelId := arn ch; RetryIntervalInMinutes := 2 |})
      <$> filter (λ ch, engagement_time ch = d) info.
Proof. done. Qed.

Lemma StronglySorted_lookup_lt ts i j t t' :
  StronglySorted Z.lt ts → ts !! i = Some t → ts !! j = Some t' →
  (i < j)%nat → t < t'.
Proof.
  intros Hs. revert i j.
  induction Hs as [|t0 ts Hs IH Hall]; intros i j Hi Hj Hlt; [done|].
  destruct j as [|j]; [lia|]. cbn [lookup list_lookup] in Hj.
  destruct i as [|i].
  - injection Hi as ->. rewrite Forall_forall in Hall.
    eapply Hall, list_elem_of_lookup_2, Hj.
  - eapply (IH i j); [done..|lia].
Qed.

(** The wait of a group stage is positive: the delays are visited in
    strictly ascending order, and the last stage waits one minute. *)
Lemma stage_duration_pos info k t :
  times info !! k = Some t → 0 < stage_duration (times info) k t.
Proof.
  intros Hk. unfold stage_duration. cbv zeta.
  case_decide as Hlt; [|lia].
  destruct (times info !! (k + 1)%nat) as [t'|] eqn:Hk'; [|lia].
  pose proof (StronglySorted_lookup_lt (times info) k (k + 1) t t'
                (sorted_engagement_times_lt _) Hk Hk'). lia.
Qed.

(** Every stage of a plan waits at least one minute. *)
Lemma plan_stages_waits_positive info :
  Forall (λ st, 0 < DurationInMinutes st) (plan_stages info).
Proof.
  apply Forall_forall. intros st.
  unfold plan_stages. cbv zeta. intros [Hin|Hin]%elem_of_app.
  - destruct (times info) as [|t0 ts]; simpl in Hin;
      [by apply elem_of_nil in Hin|].
    case_decide; [|by apply elem_of_nil in Hin].
    by apply list_elem_of_singleton in Hin as ->.
  - apply elem_of_lookup_imap in Hin as (k & t & -> & Hk).
    by apply stage_duration_pos.
Qed.

Lemma total_wait_pos plan :
  Forall (λ st, 0 < DurationInMinutes st) plan → plan ≠ [] →
  0 < total_wait plan.
Proof.
  unfold total_wait. induction 1 as [|st plan Hst Hall IH]; [done|].
  intros _. cbn [foldr]. destruct plan as [|st' plan]; [simpl; lia|].
  assert (0 < foldr (λ st acc, DurationInMinutes st + acc) 0 (st' :: plan))
    by (by apply IH). lia.
Qed.

(** With positive waits, a later stage engages later. *)
Lemma engaged_at_lt plan i j :
  Forall (λ st, 0 < DurationInMinutes st) plan →
  (i < j ≤ length plan)%nat → engaged_at plan i < engaged_at plan j.
Proof.
  intros Hpos Hij. unfold engaged_at.
  replace j with (i + (j - i))%nat by lia.
  rewrite <- take_take_drop, total_wait_app.
  assert (0 < total_wait (take (j - i) (drop i plan))); [|lia].
  apply total_wait_pos.
  - by apply Forall_take, Forall_drop.
  - intros Hnil%(f_equal length). rewrite length_take, length_drop in Hnil.
    simpl in Hnil. lia.
Qed.
End builder.

(* ================================================================== *)
(** * The testable properties of the builder *)

Section escalation_plan.
Import Update.
Implicit Types (info : list channel) (plan : list stage).

Local Abbreviation times info :=
  (sorted_engagement_times (engagement_groups info)).

(** When every configured channel has a reference, [channel_info] keeps
    every channel, in order, with its reference and its delay. *)
Lemma channel_info_lookup channels (channel_arns_by_type : dict string string) k cc :
  (∀ cc, cc ∈ channels → is_Some (dict_get (type cc) channel_arns_by_type)) →
  channels !! k = Some cc →
  ∃ a, dict_get (type cc) channel_arns_by_type = Some a
       ∧ channel_info channels channel_arns_by_type !! k
         = Some {| arn := a;
                   engagement_time := default 0 (engagement_time_minutes cc);
                   channel_type := type cc |}.
Proof.
  revert k. induction channels as [|c channels IH]; intros k Hall Hk; [done|].
  destruct (Hall c) as [a Ha]; [left|].
  unfold channel_info in *. simpl. rewrite Ha. simpl.
  destruct k as [|k]; simpl in *.
  - injection Hk as <-. eauto.
  - apply IH; [|done]. intros ? ?. apply Hall. by right.
Qed.

Lemma channel_info_delay channels (channel_arns_by_type : dict string string) ch :
  ch ∈ channel_info channels channel_arns_by_type →
  ∃ cc, cc ∈ channels
        ∧ engagement_time ch = default 0 (engagement_time_minutes cc)
        ∧ channel_type ch = type cc
        ∧ dict_get (type cc) channel_arns_by_type = Some (arn ch).
Proof.
  unfold channel_info. intros (cc & Hcc & Hch)%list_elem_of_omap.
  exists cc. split; [done|].
  destruct (dict_get _ _) as [a|]; [|done].
  by injection Hch as <-.
Qed.

(** C1: for every list of channels with non-negative delays whose
    channel references were all created, the plan puts the channels that
    share a delay into exactly one stage: that stage targets the references
    of these channels and of no other, and the waits of the stages before
    it add up to the delay.  Every stage waits at least one minute, so the
    stages engage in ascending order of delay. *)
Theorem plan_stages_delays_accumulate
    (channels : list channel_config)
    (channel_arns_by_type : dict string string) :
  (∀ cc, cc ∈ channels → is_Some (dict_get (type cc) channel_arns_by_type)) →
  (∀ cc, cc ∈ channels → 0 ≤ default 0 (engagement_time_minutes cc)) →
  let info := channel_info channels channel_arns_by_type in
  let plan := plan_stages info in
  (* every configured channel is planned, with its reference and delay *)
  (∀ k cc, channels !! k = Some cc →
     ∃ a, dict_get (type cc) channel_arns_by_type = Some a
          ∧ info !! k
            = Some {| arn := a;
                      engagement_time := default 0 (engagement_time_minutes cc);
                      channel_type := type cc |})
  (* the stage of a channel targets the references of all channels of its
     delay, in their configured order, and engages them when the waits
     before it have summed to that delay *)
  ∧ (∀ ch, ch ∈ info →
       ∃ i st, plan !! i = Some st
               ∧ Targets st
                 = (λ c, {| ContactChannelId := arn c;
                            RetryIntervalInMinutes := 2 |})
                     <$> filter (λ c, engagement_time c = engagement_time ch)
                           info
               ∧ arn ch ∈ ContactChannelId <$> Targets st
               ∧ engaged_at plan i = engagement_time ch)
  (* every stage with targets is such a stage *)
  ∧ (∀ i st, plan !! i = Some st → Targets st ≠ [] →
       Targets st
       = (λ c, {| ContactChannelId := arn c; RetryIntervalInMinutes := 2 |})
           <$> filter (λ c, engagement_time c = engaged_at plan i) info
       ∧ ∃ ch, ch ∈ info ∧ engagement_time ch = engaged_at plan i)
  (* there is one stage only per delay *)
  ∧ (∀ i j st st', plan !! i = Some st → plan !! j = Some st' →
       Targets st ≠ [] → Targets st' ≠ [] →
       engaged_at plan i = engaged_at plan j → i = j)
  (* the waits are positive, and so a later stage engages later *)
  ∧ Forall (λ st, 0 < DurationInMinutes st) plan
  ∧ (∀ i j, (i < j ≤ length plan)%nat →
       engaged_at plan i < engaged_at plan j).
Proof.
  intros Hrefs Hdelays info plan.
  assert (∀ ch, ch ∈ info → 0 ≤ engagement_time ch) as Hnn.
  { intros ch (cc & Hcc & -> & _)%channel_info_delay. by apply Hdelays. }
  split; [|split; [|split; [|split; [|split]]]].
  - intros k cc Hk. by apply channel_info_lookup.
  - intros ch Hin.
    assert (engagement_time ch ∈ times info) as Ht
      by (apply elem_of_sorted_times; eauto).
    apply list_elem_of_lookup_1 in Ht as [k Hk].
    eexists (length (initial_wait (times info)) + k)%nat, _.
    split; [by apply plan_stages_group_lookup|].
    rewrite Targets_group_stage, targets_at_references.
    split; [done|]. split.
    + rewrite <- list_fmap_compose.
      apply (list_elem_of_fmap_2 arn). by apply list_elem_of_filter.
    + by apply engaged_at_plan_stages.
  - intros i st Hi Hne. unfold plan in *.
    apply plan_stages_lookup in Hi as [[_ ?]|(k & t & -> & Hk & ->)]; [done|].
    rewrite Targets_group_stage, targets_at_references.
    rewrite (engaged_at_plan_stages info k t) by done.
    split; [done|].
    apply elem_of_sorted_times. eapply list_elem_of_lookup_2, Hk.
  - intros i j st st' Hi Hj Hne Hne' Heq. unfold plan in *.
    apply plan_stages_lookup in Hi as [[_ ?]|(k & t & -> & Hk & ->)]; [done|].
    apply plan_stages_lookup in Hj as [[_ ?]|(k' & t' & -> & Hk' & ->)]; [done|].
    rewrite (engaged_at_plan_stages info k t),
            (engaged_at_plan_stages info k' t') in Heq by done.
    subst t'. f_equal.
    eapply NoDup_lookup; [apply NoDup_sorted_engagement_times|done..].
  - apply plan_stages_waits_positive.
  - intros i j Hij. apply engaged_at_lt; [|done].
    apply plan_stages_waits_positive.
Qed.

Lemma plan_stages_delays_accumulate_witness :
  let channels :=
    [ {| type := "EMAIL"; address := "dvcong@vinamilk.com.vn";
         engagement_time_minutes := Some 10 |};
      {| type := "SMS"; address := "+84344353188";
         engagement_time_minutes := Some 15 |} ] in
  let channel_arns_by_type := [("EMAIL", "arn:email"); ("SMS", "arn:sms")] in
  let info := channel_info channels channel_arns_by_type in
  (∀ cc, cc ∈ channels → is_Some (dict_get (type cc) channel_arns_by_type))
  ∧ (∀ cc, cc ∈ channels → 0 ≤ default 0 (engagement_time_minutes cc))
  ∧ (∀ ch, ch ∈ info →
       ∃ i st, plan_stages info !! i = Some st
               ∧ Targets st
                 = (λ c, {| ContactChannelId := arn c;
                            RetryIntervalInMinutes := 2 |})
                     <$> filter (λ c, engagement_time c = engagement_time ch)
                           info
               ∧ arn ch ∈ ContactChannelId <$> Targets st
               ∧ engaged_at (plan_stages info) i = engagement_time ch).
Proof.
  intros channels channel_arns_by_type info.
  assert (∀ cc, cc ∈ channels
                → is_Some (dict_get (type cc) channel_arns_by_type)) as H1.
  { intros cc Hin. repeat (apply elem_of_cons in Hin as [->|Hin]; [by eexists|]).
    by apply elem_of_nil in Hin. }
  assert (∀ cc, cc ∈ channels
                → 0 ≤ default 0 (engagement_time_minutes cc)) as H2.
  { intros cc Hin. repeat (apply elem_of_cons in Hin as [->|Hin]; [simpl; lia|]).
    by apply elem_of_nil in Hin. }
  split; [exact H1|]. split; [exact H2|].
  exact (proj1 (proj2
           (plan_stages_delays_accumulate channels channel_arns_by_type H1 H2))).
Defined.

(** C2: channels at delays 0, 0, 15, 15, 10 give three stages: wait 10
    with the two channels of delay 0, wait 5 with the channel of delay 10,
    wait 1 with the two channels of delay 15; there is no initial stage
    without targets. *)
Theorem plan_stages_0_0_15_15_10 (a1 a2 a3 a4 a5 t1 t2 t3 t4 t5 : string) :
  plan_stages
    [ {| arn := a1; engagement_time := 0; channel_type := t1 |};
      {| arn := a2; engagement_time := 0; channel_type := t2 |};
      {| arn := a3; engagement_time := 15; channel_type := t3 |};
      {| arn := a4; engagement_time := 15; channel_type := t4 |};
      {| arn := a5; engagement_time := 10; channel_type := t5 |} ]
  = [ {| DurationInMinutes := 10;
         Targets := [ {| ContactChannelId := a1; RetryIntervalInMinutes := 2 |};
                      {| ContactChannelId := a2; RetryIntervalInMinutes := 2 |} ] |};
      {| DurationInMinutes := 5;
         Targets := [ {| ContactChannelId := a5; RetryIntervalInMinutes := 2 |} ] |};
      {| DurationInMinutes := 1;
         Targets := [ {| ContactChannelId := a3; RetryIntervalInMinutes := 2 |};
                      {| ContactChannelId := a4; RetryIntervalInMinutes := 2 |} ] |} ].
Proof. vm_compute. reflexivity. Qed.

Lemma times_nonempty info : info ≠ [] → times info ≠ [].
Proof.
  destruct info as [|ch info]; [done|]. intros _ Hnil.
  assert (engagement_time ch ∈ times (ch :: info)) as Hin
    by (apply elem_of_sorted_times; exists ch; split; [left|done]).
  rewrite Hnil in Hin. by apply elem_of_nil in Hin.
Qed.

(** C3: the last stage of the plan of a non-empty channel list waits
    exactly 1 minute, whatever the delays; so its wait is at least 1. *)
Theorem plan_stages_last_duration info :
  info ≠ [] →
  ∃ st, last (plan_stages info) = Some st
        ∧ DurationInMinutes st = 1 ∧ 1 ≤ DurationInMinutes st.
Proof.
  intros Hne%times_nonempty. unfold plan_stages. cbv zeta.
  set (ts := times info) in *. set (g := engagement_groups info).
  destruct (ts !! pred (length ts)) as [t|] eqn:Ht.
  2:{ apply lookup_ge_None in Ht. destruct ts; simpl in *; [done|lia]. }
  exists (group_stage g ts (pred (length ts)) t). split.
  - rewrite last_lookup, length_app, length_imap.
    rewrite lookup_app_r by (destruct ts; simpl in *; [done|lia]).
    replace (pred _ - _)%nat with (pred (length ts))
      by (destruct ts; simpl in *; [done|lia]).
    by rewrite list_lookup_imap, Ht.
  - simpl. unfold stage_duration.
    rewrite decide_False by (destruct ts; simpl in *; [done|lia]). lia.
Qed.

Lemma plan_stages_last_duration_witness :
  let info := [ {| arn := "arn:sms"; engagement_time := 15;
                   channel_type := "SMS" |} ] in
  info ≠ []
  ∧ ∃ st, last (plan_stages info) = Some st
          ∧ DurationInMinutes st = 1 ∧ 1 ≤ DurationInMinutes st.
Proof.
  intros info.
  assert (info ≠ []) as Hne by discriminate.
  split; [exact Hne|]. exact (plan_stages_last_duration info Hne).
Defined.

(** The first of the sorted delays is the smallest delay. *)
Lemma times_head_smallest info d :
  (∃ ch, ch ∈ info ∧ engagement_time ch = d) →
  (∀ ch, ch ∈ info → d ≤ engagement_time ch) →
  ∃ ts, times info = d :: ts.
Proof.
  intros Hd Hmin.
  apply elem_of_sorted_times in Hd.
  pose proof (sorted_engagement_times_lt (engagement_groups info)) as Hs.
  destruct (times info) as [|t0 ts] eqn:E; [by apply elem_of_nil in Hd|].
  assert (d ≤ t0).
  { assert (t0 ∈ times info) as (ch & Hin & <-)%elem_of_sorted_times
      by (rewrite E; left).
    by apply Hmin. }
  apply StronglySorted_inv in Hs as [_ Hall].
  apply elem_of_cons in Hd as [->|Hd]; [eauto|].
  rewrite Forall_forall in Hall. specialize (Hall d Hd). lia.
Qed.

(** C4: when the smallest delay [d] is greater than zero the plan starts
    with a stage without targets that waits [d]; when it is zero no stage
    without targets is emitted. *)
Theorem plan_stages_initial_wait info d :
  (∃ ch, ch ∈ info ∧ engagement_time ch = d) →
  (∀ ch, ch ∈ info → d ≤ engagement_time ch) →
  (0 < d →
     plan_stages info !! 0%nat
     = Some {| DurationInMinutes := d; Targets := [] |})
  ∧ (d = 0 → ∀ st, st ∈ plan_stages info → Targets st ≠ []).
Proof.
  intros Hd Hmin.
  destruct (times_head_smallest info d Hd Hmin) as [ts Hts].
  split.
  - intros Hpos. unfold plan_stages. cbv zeta. rewrite Hts. simpl.
    by rewrite decide_True.
  - intros -> st (i & Hi)%list_elem_of_lookup_1.
    apply plan_stages_lookup in Hi as [[Hlt _]|(k & t & _ & Hk & ->)].
    + rewrite Hts in Hlt. simpl in Hlt. lia.
    + rewrite Targets_group_stage.
      assert (t ∈ times info) as (ch & Hin & <-)%elem_of_sorted_times
        by (eapply list_elem_of_lookup_2, Hk).
      by apply targets_at_nonempty.
Qed.

Lemma plan_stages_initial_wait_witness :
  let info := [ {| arn := "arn:email"; engagement_time := 10;
                   channel_type := "EMAIL" |};
                {| arn := "arn:sms"; engagement_time := 15;
                   channel_type := "SMS" |} ] in
  (∃ ch, ch ∈ info ∧ engagement_time ch = 10)
  ∧ (∀ ch, ch ∈ info → 10 ≤ engagement_time ch)
  ∧ plan_stages info !! 0%nat
    = Some {| DurationInMinutes := 10; Targets := [] |}.
Proof.
  intros info.
  assert (∃ ch, ch ∈ info ∧ engagement_time ch = 10) as H1.
  { eexists. split; [left|reflexivity]. }
  assert (∀ ch, ch ∈ info → 10 ≤ engagement_time ch) as H2.
  { intros ch Hin. repeat (apply elem_of_cons in Hin as [->|Hin]; [simpl; lia|]).
    by apply elem_of_nil in Hin. }
  split; [exact H1|]. split; [exact H2|].
  apply (proj1 (plan_stages_initial_wait info 10 H1 H2)). lia.
Defined.
End escalation_plan.

(* ================================================================== *)
(** * What a run may do

    [follows allowed s s']: the state [s'] is reached from [s] by events
    that are all [allowed], and an account identifier memoised in [s] is
    still memoised in [s'].  A computation [respects allowed] when every run
    of it leads to a state that follows its start state. *)

Create HintDb respects discriminated.

Section respects.
Context (allowed : event → bool).
Context (allowed_quiet : ∀ ev, quiet ev = true → allowed ev = true).

Lemma follows_refl s : follows allowed s s.
Proof. split; [|done]. exists []. by rewrite app_nil_r. Qed.

Lemma follows_trans s1 s2 s3 :
  follows allowed s1 s2 → follows allowed s2 s3 → follows allowed s1 s3.
Proof.
  intros [(evs1 & E1 & F1) A1] [(evs2 & E2 & F2) A2]. split; [|by auto].
  exists (evs1 ++ evs2). rewrite E2, E1, app_assoc. split; [done|].
  by apply Forall_app.
Qed.

Lemma follows_emit s ev : allowed ev = true → follows allowed s (emit ev s).
Proof. intros Hev. split; [|done]. exists [ev]. by repeat constructor. Qed.

Lemma respects_ret {A} (a : A) : respects allowed (ret a).
Proof. intros s. apply follows_refl. Qed.

Lemma respects_raise {A} e : respects allowed (raise (A:=A) e).
Proof. intros s. apply follows_refl. Qed.

Lemma respects_bind {A B} (m : M A) (f : A → M B) :
  respects allowed m → (∀ a, respects allowed (f a)) →
  respects allowed (bind m f).
Proof.
  intros Hm Hf s. unfold bind. specialize (Hm s).
  destruct (m s) as [[a|e] s1]; simpl in *; [|done].
  eapply follows_trans; [done|apply Hf].
Qed.

Lemma respects_try_except {A} (body : M A) class handler :
  respects allowed body → (∀ e, respects allowed (handler e)) →
  respects allowed (try_except body class handler).
Proof.
  intros Hm Hh s. unfold try_except. specialize (Hm s).
  destruct (body s) as [[a|e] s1]; simpl in *; [done|].
  destruct (class e); [|done].
  eapply follows_trans; [done|apply Hh].
Qed.

Lemma respects_attempt {A} (m : M A) :
  respects allowed m → respects allowed (attempt m).
Proof. intros Hm s. unfold attempt. specialize (Hm s). by destruct (m s). Qed.

Lemma respects_for_each {A} (l : list A) body :
  (∀ x, respects allowed (body x)) → respects allowed (for_each l body).
Proof.
  intros Hb. induction l as [|x l IH]; simpl; [apply respects_ret|].
  by apply respects_bind.
Qed.

Lemma respects_for_fold {A B} (l : list A) (acc : B) body :
  (∀ acc x, respects allowed (body acc x)) →
  respects allowed (for_fold l acc body).
Proof.
  intros Hb. revert acc. induction l as [|x l IH]; intros acc; simpl;
    [apply respects_ret|].
  by apply respects_bind.
Qed.

Lemma respects_subscript {A} (r : option A) : respects allowed (subscript r).
Proof. destruct r; [apply respects_ret|apply respects_raise]. Qed.

Lemma respects_getitem {V} k (d : dict string V) :
  respects allowed (getitem k d).
Proof.
  unfold getitem. destruct (dict_get k d);
    [apply respects_ret|apply respects_raise].
Qed.

Lemma respects_event_print l : respects allowed (print l).
Proof. intros s. by apply follows_emit, allowed_quiet. Qed.

Lemma respects_sleep n : respects allowed (sleep n).
Proof. intros s. by apply follows_emit, allowed_quiet. Qed.

Lemma respects_input w p : respects allowed (input w p).
Proof. intros s. by apply follows_emit, allowed_quiet. Qed.

Lemma respects_call w c :
  allowed (Call c) = true → respects allowed (call w c).
Proof. intros Hc s. by apply follows_emit. Qed.

Lemma respects_log self message level :
  respects allowed (log self message level).
Proof.
  unfold log. destruct (_ && _); [apply respects_ret|].
  apply respects_event_print.
Qed.

Lemma respects_get_account_id w : respects allowed (get_account_id w).
Proof.
  intros s. unfold get_account_id.
  destruct (account_id s) eqn:Hacc; [apply follows_refl|].
  unfold call. destruct (respond w (trace s) sts_get_caller_identity); simpl.
  - split; simpl; [|intros; congruence].
    exists [Call sts_get_caller_identity]. split; [done|].
    repeat constructor. by apply allowed_quiet.
  - by apply follows_emit, allowed_quiet.
Qed.

Lemma respects_get_contact_arn w self alias :
  respects allowed (get_contact_arn w self alias).
Proof.
  unfold get_contact_arn.
  apply respects_bind; [apply respects_get_account_id|].
  intros. apply respects_ret.
Qed.
End respects.

#[export] Hint Resolve respects_ret respects_raise respects_subscript
respects_getitem respects_event_print respects_sleep respects_input
respects_log respects_get_account_id respects_get_contact_arn
respects_call : respects.

(** Takes a goal [respects allowed m] apart along the structure of [m]. *)
Ltac respects_step :=
lazymatch goal with
| |- respects _ (bind _ _) => apply respects_bind; [|intros]
| |- respects _ (try_except _ _ _) => apply respects_try_except; [|intros]
| |- respects _ (attempt _) => apply respects_attempt
| |- respects _ (for_each _ _) => apply respects_for_each; intros
| |- respects _ (for_fold _ _ _) => apply respects_for_fold; intros
| |- respects _ (call _ _) =>
    apply respects_call;
    solve [ auto
          | match goal with
            | H : ∀ ev, quiet ev = true → _ |- _ => apply H; reflexivity
            end ]
| |- respects _ (if true then _ else _) => cbv beta iota
| |- respects _ (if false then _ else _) => cbv beta iota
| |- respects _ (match ?x with _ => _ end) => destruct x
| |- respects _ (let _ := _ in _) => cbv zeta
| |- respects _ ((λ _, _) _) => cbv beta
| |- respects _ _ => solve [eauto with respects]
end.

Ltac respects_tac := repeat respects_step.

Lemma permitted_dry allowed : permitted allowed true.
Proof. by left. Qed.

Lemma permitted_all allowed dry :
(∀ ev, allowed ev = true) → permitted allowed dry.
Proof. by right. Qed.

#[export] Hint Resolve permitted_dry permitted_all : respects.

Ltac permitted_cases H :=
let Hdry := fresh "Hdry" in
let Hall := fresh "Hall" in
pose proof H as [Hdry|Hall]; [rewrite ?Hdry|].

Section update_respects.
Import Update.
Context (allowed : event → bool).
Context (allowed_quiet : ∀ ev, quiet ev = true → allowed ev = true).
Context (w : world) (CONFIG : config).
Context (CONTACTS_DEFINITION : dict string contact_details).
Context (RESPONSE_PLANS_TO_UPDATE : dict string response_plan_update).

(** [retry_operation] does what the operation it wraps does, logs and
    sleeps. *)
Lemma respects_retry_loop {A} self (operation : M A) attempts :
  respects allowed operation →
  respects allowed (retry_loop CONFIG self operation attempts).
Proof.
  intros Hop. induction attempts as [|attempt attempts IH];
    cbn [retry_loop]; respects_tac.
Qed.

Lemma respects_retry_operation {A} self (operation : M A) :
  respects allowed operation →
  respects allowed (retry_operation CONFIG self operation).
Proof. apply respects_retry_loop. Qed.
Local Hint Resolve respects_retry_operation : respects.

Lemma respects_contact_exists self alias :
  respects allowed (contact_exists w self alias).
Proof. unfold contact_exists. respects_tac. Qed.
Local Hint Resolve respects_contact_exists : respects.

Lemma respects_get_existing_contact_channels self contact_arn :
  respects allowed (get_existing_contact_channels w self contact_arn).
Proof. unfold get_existing_contact_channels. respects_tac. Qed.
Local Hint Resolve respects_get_existing_contact_channels : respects.

Lemma respects_create_contact_channel self contact_arn channel_config
    contact_name :
  permitted allowed (dry_run self) →
  respects allowed
    (create_contact_channel w CONFIG self contact_arn channel_config
       contact_name).
Proof.
  intros Hperm. unfold create_contact_channel.
  permitted_cases Hperm; respects_tac.
Qed.
Local Hint Resolve respects_create_contact_channel : respects.

Lemma respects_update_contact_plan self alias contact_arn details
    channel_arns_by_type :
  (∀ ev, allowed ev = true) →
  respects allowed
    (update_contact_plan w CONFIG self alias contact_arn details
       channel_arns_by_type).
Proof. intros Hall. unfold update_contact_plan. respects_tac. Qed.
Local Hint Resolve respects_update_contact_plan : respects.

Lemma respects_create_or_update_contact self alias details :
  permitted allowed (dry_run self) →
  respects allowed (create_or_update_contact w CONFIG self alias details).
Proof.
  intros Hperm. unfold create_or_update_contact.
  permitted_cases Hperm.
  - respects_tac.
  - unfold ensure_contact, contact_channels, use_or_create_channel,
      create_channel. respects_tac.
Qed.
Local Hint Resolve respects_create_or_update_contact : respects.

Lemma respects_get_response_plan_arn plan_name :
  respects allowed (get_response_plan_arn w plan_name).
Proof. unfold get_response_plan_arn. respects_tac. Qed.
Local Hint Resolve respects_get_response_plan_arn : respects.

Lemma respects_update_response_plan self plan_name plan_details contact_arns :
  permitted allowed (dry_run self) →
  respects allowed
    (update_response_plan w CONFIG self plan_name plan_details contact_arns).
Proof.
  intros Hperm. unfold update_response_plan.
  permitted_cases Hperm; respects_tac.
Qed.
Local Hint Resolve respects_update_response_plan : respects.

Lemma respects_all_pass {A} (l : list A) check :
  (∀ x, respects allowed (check x)) → respects allowed (all_pass l check).
Proof. intros Hc. induction l as [|x l IH]; cbn [all_pass]; respects_tac. Qed.

Lemma respects_validate_configuration self :
  respects allowed
    (validate_configuration CONTACTS_DEFINITION RESPONSE_PLANS_TO_UPDATE self).
Proof.
  unfold validate_configuration.
  assert (∀ alias channel,
            respects allowed (validate_channel self alias channel)) as Hch
    by (intros; unfold validate_channel; respects_tac).
  assert (∀ item, respects allowed (validate_contact self item)) as Hct.
  { intros. unfold validate_contact. respects_tac.
    apply respects_all_pass. intros. apply Hch. }
  assert (∀ item,
            respects allowed
              (validate_response_plan CONTACTS_DEFINITION self item)) as Hrp.
  { intros. unfold validate_response_plan. respects_tac.
    apply respects_all_pass. intros. respects_tac. }
  respects_tac; apply respects_all_pass; auto.
Qed.
Local Hint Resolve respects_validate_configuration : respects.

Lemma respects_print_summary self contact_arns :
  respects allowed
    (print_summary w CONFIG CONTACTS_DEFINITION RESPONSE_PLANS_TO_UPDATE
       self contact_arns).
Proof. unfold print_summary. respects_tac. Qed.
Local Hint Resolve respects_print_summary : respects.

Lemma respects_process_contact helper locals item :
  permitted allowed (dry_run helper) →
  respects allowed (process_contact w CONFIG helper locals item).
Proof. intros Hperm. unfold process_contact. respects_tac. Qed.
Local Hint Resolve respects_process_contact : respects.

Lemma respects_process_response_plan helper contact_arns success item :
  permitted allowed (dry_run helper) →
  respects allowed
    (process_response_plan w CONFIG helper contact_arns success item).
Proof. intros Hperm. unfold process_response_plan. respects_tac. Qed.
Local Hint Resolve respects_process_response_plan : respects.

Lemma respects_update_main :
  permitted allowed (CONFIG_dry_run CONFIG) →
  respects allowed
    (main w CONFIG CONTACTS_DEFINITION RESPONSE_PLANS_TO_UPDATE).
Proof. intros Hperm. unfold main. respects_tac. Qed.
End update_respects.

Section delete_respects.
Import Delete.
Context (allowed : event → bool).
Context (allowed_quiet : ∀ ev, quiet ev = true → allowed ev = true).
Context (w : world) (CONFIG : config) (CONTACTS_TO_DELETE : list string).

Lemma respects_get_contact_details self alias :
  respects allowed (get_contact_details w self alias).
Proof. unfold get_contact_details. respects_tac. Qed.
Local Hint Resolve respects_get_contact_details : respects.

Lemma respects_get_contact_channels self contact_arn :
  respects allowed (get_contact_channels w self contact_arn).
Proof. unfold get_contact_channels. respects_tac. Qed.
Local Hint Resolve respects_get_contact_channels : respects.

Lemma respects_scan_page contact_arn summaries response_plans :
  respects allowed (scan_page w contact_arn summaries response_plans).
Proof.
  revert response_plans.
  induction summaries as [|plan_summary summaries IH]; intros;
    cbn [scan_page]; respects_tac.
Qed.
Local Hint Resolve respects_scan_page : respects.

Lemma respects_scan_pages contact_arn pages response_plans :
  respects allowed (scan_pages w contact_arn pages response_plans).
Proof.
  revert response_plans.
  induction pages as [|page pages IH]; intros; cbn [scan_pages];
    respects_tac.
Qed.
Local Hint Resolve respects_scan_pages : respects.

Lemma respects_get_response_plans_using_contact self contact_arn :
  respects allowed (get_response_plans_using_contact w self contact_arn).
Proof. unfold get_response_plans_using_contact. respects_tac. Qed.
Local Hint Resolve respects_get_response_plans_using_contact : respects.

Lemma respects_remove_contact_from_response_plan self plan_name contact_arn :
  permitted allowed (dry_run self) →
  respects allowed
    (remove_contact_from_response_plan w self plan_name contact_arn).
Proof.
  intros Hperm. unfold remove_contact_from_response_plan.
  permitted_cases Hperm; respects_tac.
Qed.
Local Hint Resolve respects_remove_contact_from_response_plan : respects.

Lemma respects_delete_contact_channel self channel_arn channel_info :
  permitted allowed (dry_run self) →
  respects allowed (delete_contact_channel w self channel_arn channel_info).
Proof.
  intros Hperm. unfold delete_contact_channel.
  permitted_cases Hperm; respects_tac.
Qed.
Local Hint Resolve respects_delete_contact_channel : respects.

Lemma respects_delete_contact self alias :
  permitted allowed (dry_run self) →
  respects allowed (delete_contact w CONFIG self alias).
Proof.
  intros Hperm. unfold delete_contact.
  permitted_cases Hperm; respects_tac.
Qed.
Local Hint Resolve respects_delete_contact : respects.

Lemma respects_delete_print_summary self contacts_processed :
  respects allowed (print_summary w self contacts_processed).
Proof. unfold print_summary. respects_tac. Qed.
Local Hint Resolve respects_delete_print_summary : respects.

Lemma respects_confirm_deletion contacts :
  respects allowed (confirm_deletion w CONFIG contacts).
Proof. unfold confirm_deletion. respects_tac. Qed.
Local Hint Resolve respects_confirm_deletion : respects.

Lemma respects_delete_process_contact helper contacts_processed alias :
  permitted allowed (dry_run helper) →
  respects allowed (process_contact w CONFIG helper contacts_processed alias).
Proof. intros Hperm. unfold process_contact. respects_tac. Qed.
Local Hint Resolve respects_delete_process_contact : respects.

Lemma respects_delete_main :
  permitted allowed (CONFIG_dry_run CONFIG) →
  respects allowed (main w CONFIG CONTACTS_TO_DELETE).
Proof. intros Hperm. unfold main. respects_tac. Qed.
End delete_respects.

#[export] Hint Resolve respects_retry_operation respects_contact_exists
  respects_get_existing_contact_channels respects_create_contact_channel
  respects_update_contact_plan respects_create_or_update_contact
  respects_get_response_plan_arn respects_update_response_plan
  respects_validate_configuration respects_print_summary
  respects_process_contact respects_process_response_plan
  respects_get_contact_details respects_get_contact_channels
  respects_get_response_plans_using_contact
  respects_remove_contact_from_response_plan respects_delete_contact_channel
  respects_delete_contact respects_delete_print_summary
  respects_confirm_deletion respects_delete_process_contact : respects.

Lemma anything_quiet ev : quiet ev = true → anything ev = true.
Proof. done. Qed.

Lemma permitted_anything dry : permitted anything dry.
Proof. by right. Qed.

#[export] Hint Resolve anything_quiet permitted_anything : respects.

(* ================================================================== *)
(** * Dry run *)

Lemma respects_quiet_no_mutating_call {A} (m : M A) :
  respects quiet m → no_mutating_call m.
Proof.
  intros Hm s. destruct (Hm s) as [(evs & Htr & Hall) _].
  exists evs. split; [done|]. intros c Hc.
  rewrite Forall_forall in Hall. specialize (Hall _ Hc). simpl in Hall.
  by destruct (mutating c).
Qed.

(** C9: with the dry-run flag set, no operation of either script performs
    a mutating remote call; the operations that would mutate only log. *)
Theorem dry_run_no_mutating_call (w : world) (self : helper)
    (update_CONFIG : Update.config) (delete_CONFIG : Delete.config) :
  dry_run self = true →
  Update.CONFIG_dry_run update_CONFIG = true →
  Delete.CONFIG_dry_run delete_CONFIG = true →
  (* im-update1.py *)
  (∀ alias, no_mutating_call (Update.contact_exists w self alias))
  ∧ (∀ contact_arn,
       no_mutating_call (Update.get_existing_contact_channels w self contact_arn))
  ∧ (∀ CONFIG contact_arn channel_config contact_name,
       Update.create_contact_channel w CONFIG self contact_arn channel_config
         contact_name
       = (log self ("[DRY RUN] Would create " +:+ Update.type channel_config
                      +:+ " channel for " +:+ contact_name +:+ ": "
                      +:+ Update.address channel_config) "DEBUG";;
          ret None)%M)
  ∧ (∀ CONFIG alias details,
       no_mutating_call (Update.create_or_update_contact w CONFIG self alias details))
  ∧ (∀ CONFIG plan_name plan_details contact_arns,
       no_mutating_call
         (Update.update_response_plan w CONFIG self plan_name plan_details
            contact_arns))
  ∧ (∀ CONFIG CONTACTS_DEFINITION RESPONSE_PLANS_TO_UPDATE contact_arns,
       no_mutating_call
         (Update.validate_configuration CONTACTS_DEFINITION
            RESPONSE_PLANS_TO_UPDATE self)
       ∧ no_mutating_call
           (Update.print_summary w CONFIG CONTACTS_DEFINITION
              RESPONSE_PLANS_TO_UPDATE self contact_arns))
  ∧ (∀ CONTACTS_DEFINITION RESPONSE_PLANS_TO_UPDATE,
       no_mutating_call
         (Update.main w update_CONFIG CONTACTS_DEFINITION RESPONSE_PLANS_TO_UPDATE)
       ∧ no_mutating_call
           (Update.script w update_CONFIG CONTACTS_DEFINITION
              RESPONSE_PLANS_TO_UPDATE))
  (* im-delete-contacts.py *)
  ∧ (∀ alias contact_arn,
       no_mutating_call (Delete.get_contact_details w self alias)
       ∧ no_mutating_call (Delete.get_contact_channels w self contact_arn)
       ∧ no_mutating_call
           (Delete.get_response_plans_using_contact w self contact_arn))
  ∧ (∀ plan_name contact_arn,
       Delete.remove_contact_from_response_plan w self plan_name contact_arn
       = log self ("[DRY RUN] Would remove contact from response plan: "
                     +:+ plan_name) "DEBUG")
  ∧ (∀ channel_arn channel_info,
       Delete.delete_contact_channel w self channel_arn channel_info
       = log self ("[DRY RUN] Would delete "
                     +:+ Delete.channel_type channel_info +:+ " channel: "
                     +:+ Delete.channel_name channel_info) "DEBUG")
  ∧ (∀ CONFIG alias, no_mutating_call (Delete.delete_contact w CONFIG self alias))
  ∧ (∀ CONFIG contacts contacts_processed,
       no_mutating_call (Delete.confirm_deletion w CONFIG contacts)
       ∧ no_mutating_call (Delete.print_summary w self contacts_processed))
  ∧ (∀ CONTACTS_TO_DELETE,
       no_mutating_call (Delete.main w delete_CONFIG CONTACTS_TO_DELETE)
       ∧ no_mutating_call (Delete.script w delete_CONFIG CONTACTS_TO_DELETE)).
Proof.
  intros Hdry Hupdate Hdelete.
  assert (permitted quiet (dry_run self)) as Hself by (by left).
  assert (∀ CONTACTS_DEFINITION RESPONSE_PLANS_TO_UPDATE,
            no_mutating_call
              (Update.main w update_CONFIG CONTACTS_DEFINITION
                 RESPONSE_PLANS_TO_UPDATE)) as Hupdate_main.
  { intros. apply respects_quiet_no_mutating_call, respects_update_main;
      [done|by left]. }
  assert (∀ CONTACTS_TO_DELETE,
            no_mutating_call (Delete.main w delete_CONFIG CONTACTS_TO_DELETE))
    as Hdelete_main.
  { intros. apply respects_quiet_no_mutating_call, respects_delete_main;
      [done|by left]. }
  split; [|split; [|split; [|split; [|split; [|split; [|split;
    [|split; [|split; [|split; [|split; [|split]]]]]]]]]]]; intros.
  - by apply respects_quiet_no_mutating_call, respects_contact_exists.
  - by apply respects_quiet_no_mutating_call,
             respects_get_existing_contact_channels.
  - unfold Update.create_contact_channel. by rewrite Hdry.
  - by apply respects_quiet_no_mutating_call, respects_create_or_update_contact.
  - by apply respects_quiet_no_mutating_call, respects_update_response_plan.
  - split; apply respects_quiet_no_mutating_call.
    + by apply respects_validate_configuration.
    + by apply respects_print_summary.
  - split; [done|].
    intros s. destruct (Hupdate_main CONTACTS_DEFINITION
                          RESPONSE_PLANS_TO_UPDATE s) as (evs & Htr & Hevs).
    exists evs. unfold Update.script. by destruct (Update.main _ _ _ _ s) as [[]].
  - repeat split; apply respects_quiet_no_mutating_call.
    + by apply respects_get_contact_details.
    + by apply respects_get_contact_channels.
    + by apply respects_get_response_plans_using_contact.
  - unfold Delete.remove_contact_from_response_plan. by rewrite Hdry.
  - unfold Delete.delete_contact_channel. by rewrite Hdry.
  - by apply respects_quiet_no_mutating_call, respects_delete_contact.
  - split; apply respects_quiet_no_mutating_call.
    + by apply respects_confirm_deletion.
    + by apply respects_delete_print_summary.
  - split; [done|].
    intros s. destruct (Hdelete_main CONTACTS_TO_DELETE s) as (evs & Htr & Hevs).
    exists evs. unfold Delete.script. by destruct (Delete.main _ _ _ s) as [[]].
Qed.

Lemma dry_run_no_mutating_call_witness :
  dry_run dry_helper = true
  ∧ Update.CONFIG_dry_run dry_update_CONFIG = true
  ∧ Delete.CONFIG_dry_run dry_delete_CONFIG = true
  ∧ no_mutating_call
      (Delete.delete_contact populated_world dry_delete_CONFIG dry_helper "asdasd").
Proof.
  split; [reflexivity|]. split; [reflexivity|]. split; [reflexivity|].
  pose proof (dry_run_no_mutating_call populated_world dry_helper
                dry_update_CONFIG dry_delete_CONFIG
                eq_refl eq_refl eq_refl) as H.
  destruct H as (_ & _ & _ & _ & _ & _ & _ & _ & _ & _ & H & _).
  exact (H dry_delete_CONFIG "asdasd").
Defined.

(* ================================================================== *)
(** * The retry wrapper *)

Section retry.
Import Update.
Context (w : world) (CONFIG : config).

Lemma extend_extend evs1 evs2 s :
  extend evs2 (extend evs1 s) = extend (evs1 ++ evs2) s.
Proof. unfold extend; simpl. by rewrite app_assoc. Qed.

Lemma log_WARN self message :
  log self message "WARN" = print ("! " +:+ message).
Proof. unfold log. by destruct (verbose self). Qed.

Lemma log_ERROR self message :
  log self message "ERROR" = print ("✗ " +:+ message).
Proof. unfold log. by destruct (verbose self). Qed.

Lemma log_INFO self message :
  log self message "INFO" = print ("✓ " +:+ message).
Proof. unfold log. by destruct (verbose self). Qed.

(** One round of the loop, by the answer of the remote service. *)
Lemma retry_loop_cons self (c : api_call) attempt attempts s :
  retry_loop CONFIG self (call w c) (attempt :: attempts) s
  = match respond w (trace s) c with
    | Returned r => (Returned (Some r), extend [Call c] s)
    | Raised e =>
        if is_ClientError e then
          if decide (attempt = CONFIG_retry_attempts CONFIG - 1)
          then (Raised e, extend [Call c] s)
          else retry_loop CONFIG self (call w c) attempts
                 (extend (retried CONFIG c attempt e) s)
        else (Raised e, extend [Call c] s)
    end.
Proof.
  cbn [retry_loop]. unfold try_except, bind, call, ret.
  destruct (respond w (trace s) c) as [r|e]; [done|].
  destruct (is_ClientError e); [|done].
  case_decide; [done|].
  rewrite log_WARN. unfold print, sleep, emit, extend, retried; simpl.
  by rewrite <- !app_assoc.
Qed.

Lemma retry_loop_run self (c : api_call) (len : nat) : ∀ attempt s,
  attempt + Z.of_nat (S len) = CONFIG_retry_attempts CONFIG →
  ∃ errs : list exn,
    Forall (λ e, is_ClientError e = true) errs
    ∧ (length errs ≤ len)%nat
    ∧ (∀ i e, errs !! i = Some e →
         respond w (trace s ++ failed_attempts CONFIG c attempt (take i errs)) c
         = Raised e)
    ∧ retry_loop CONFIG self (call w c) (seqZ attempt (Z.of_nat (S len))) s
      = (match respond w (trace s ++ failed_attempts CONFIG c attempt errs) c with
         | Returned r => Returned (Some r)
         | Raised e => Raised e
         end,
         extend (failed_attempts CONFIG c attempt errs ++ [Call c]) s)
    ∧ (∀ e, respond w (trace s ++ failed_attempts CONFIG c attempt errs) c = Raised e →
            is_ClientError e = true → length errs = len).
Proof.
  induction len as [|len IH]; intros attempt s Hn.
  - exists []. split; [done|]. split; [done|]. split; [done|].
    cbn [failed_attempts length]. rewrite app_nil_r.
    rewrite seqZ_cons by lia. rewrite seqZ_nil by lia.
    rewrite retry_loop_cons.
    destruct (respond w (trace s) c) as [r|e]; [by split|].
    destruct (is_ClientError e); [|by split].
    rewrite decide_True by lia. by split.
  - rewrite seqZ_cons by lia. rewrite retry_loop_cons.
    replace (Z.pred (Z.of_nat (S (S len)))) with (Z.of_nat (S len)) by lia.
    destruct (respond w (trace s) c) as [r|e] eqn:Hresp.
    { exists []. cbn [failed_attempts length]. rewrite !app_nil_r, Hresp.
      split; [constructor|]. split; [lia|]. do 2 (split; [done|]). done. }
    destruct (is_ClientError e) eqn:He.
    2:{ exists []. cbn [failed_attempts length]. rewrite !app_nil_r, Hresp.
        split; [constructor|]. split; [lia|]. do 2 (split; [done|]).
        intros e' [= <-] He'. congruence. }
    rewrite decide_False by lia.
    destruct (IH (Z.succ attempt) (extend (retried CONFIG c attempt e) s))
      as (errs & Hall & Hlen & Herrs & Hrun & Hlast); [lia|].
    exists (e :: errs).
    assert (∀ l, trace (extend (retried CONFIG c attempt e) s)
                   ++ failed_attempts CONFIG c (Z.succ attempt) l
                 = trace s ++ failed_attempts CONFIG c attempt (e :: l)) as Htr.
    { intros l. cbn [failed_attempts extend trace].
      by rewrite <- app_assoc. }
    split; [by constructor|]. split; [simpl; lia|]. split; [|split].
    + intros [|i] e'; simpl.
      * intros [= <-]. by rewrite app_nil_r.
      * intros Hi. specialize (Herrs i e' Hi). by rewrite Htr in Herrs.
    + rewrite Hrun, Htr, extend_extend.
      cbn [failed_attempts]. by rewrite <- app_assoc.
    + intros e' He' Hc. rewrite <- Htr in He'. simpl.
      f_equal. by eapply Hlast.
Qed.

(** C6, as the code has it: the call is attempted at most
    [CONFIG["retry_attempts"]] times; after each attempt that raised a
    [ClientError], whatever its code, the wrapper logs a warning and sleeps
    [CONFIG["retry_delay"]] before the next attempt; the outcome of the
    last attempt is the outcome of the wrapper, and a [ClientError] is the
    outcome only when all attempts are used up.  An exception of another
    class is not retried: it is the outcome of the attempt that raised
    it. *)
Theorem retry_operation_attempts (self : helper) (c : api_call) (s : state) :
  0 < CONFIG_retry_attempts CONFIG →
  ∃ errs : list exn,
    (* the attempts that failed and were retried *)
    Forall (λ e, is_ClientError e = true) errs
    ∧ Z.of_nat (length errs) < CONFIG_retry_attempts CONFIG
    ∧ (∀ i e, errs !! i = Some e →
         respond w (trace s ++ failed_attempts CONFIG c 0 (take i errs)) c = Raised e)
    (* the last attempt *)
    ∧ retry_operation CONFIG self (call w c) s
      = (match respond w (trace s ++ failed_attempts CONFIG c 0 errs) c with
         | Returned r => Returned (Some r)
         | Raised e => Raised e
         end,
         extend (failed_attempts CONFIG c 0 errs ++ [Call c]) s)
    ∧ (∀ e, respond w (trace s ++ failed_attempts CONFIG c 0 errs) c = Raised e →
            is_ClientError e = true →
            Z.of_nat (length errs) = CONFIG_retry_attempts CONFIG - 1).
Proof.
  intros Hpos. unfold retry_operation.
  destruct (Z.to_nat (CONFIG_retry_attempts CONFIG)) as [|len] eqn:Hlen;
    [lia|].
  destruct (retry_loop_run self c len 0 s)
    as (errs & Hall & Hle & Herrs & Hrun & Hlast); [lia|].
  exists errs. split; [done|]. split; [lia|]. split; [done|].
  replace (CONFIG_retry_attempts CONFIG) with (Z.of_nat (S len)) at 1 by lia.
  split; [done|].
  intros e He Hc. specialize (Hlast e He Hc). lia.
Qed.
End retry.

Lemma retry_operation_attempts_witness :
0 < Update.CONFIG_retry_attempts Update.shipped_CONFIG
∧ ∃ errs : list exn,
    Forall (λ e, is_ClientError e = true) errs
    ∧ Z.of_nat (length errs) < Update.CONFIG_retry_attempts Update.shipped_CONFIG
    ∧ fst (Update.retry_operation Update.shipped_CONFIG live_helper
             (call fresh_world (ssm_contacts_get_contact "contact/asdasd"))
             initial_state)
      = match respond fresh_world
                (failed_attempts Update.shipped_CONFIG
                   (ssm_contacts_get_contact "contact/asdasd") 0 errs)
                (ssm_contacts_get_contact "contact/asdasd") with
        | Returned r => Returned (Some r)
        | Raised e => Raised e
        end.
Proof.
assert (0 < Update.CONFIG_retry_attempts Update.shipped_CONFIG) as Hpos
  by (simpl; lia).
split; [exact Hpos|].
destruct (retry_operation_attempts fresh_world Update.shipped_CONFIG
            live_helper (ssm_contacts_get_contact "contact/asdasd")
            initial_state Hpos)
  as (errs & Hall & Hlen & _ & Hrun & _).
exists errs. split; [exact Hall|]. split; [exact Hlen|].
rewrite Hrun. reflexivity.
Defined.

(** C6, as the specification words it, does not hold: with three attempts
  configured, a call that fails with an exception other than a
  [ClientError] is attempted once, without a sleep, and not retried. *)
Lemma retry_operation_other_exception_not_retried :
Update.CONFIG_retry_attempts Update.shipped_CONFIG = 3
∧ Update.retry_operation Update.shipped_CONFIG live_helper
    (call unreachable_world
       (ssm_contacts_create_contact "lmhung" "L M Hung" "PERSONAL" []))
    initial_state
  = (Raised (OtherException "Could not connect to the endpoint URL"),
     {| account_id := None;
        trace := [Call (ssm_contacts_create_contact "lmhung" "L M Hung"
                          "PERSONAL" [])] |}).
Proof. split; reflexivity. Qed.

(* ================================================================== *)
(** * Creating a contact channel *)

Lemma bind_Returned {A B} (m : M A) (f : A → M B) s a s1 :
  m s = (Returned a, s1) → bind m f s = f a s1.
Proof. unfold bind. by intros ->. Qed.



Lemma for_fold_app {A B} (before after : list A) (acc acc1 : B) body s s1 :
  for_fold before acc body s = (Returned acc1, s1) →
  for_fold (before ++ after) acc body s = for_fold after acc1 body s1.
Proof.
  revert acc s. induction before as [|y before IH]; intros acc s; simpl.
  - by intros [= <- <-].
  - intros Hb. unfold bind at 1. unfold bind in Hb.
    destruct (body acc y s) as [[acc'|e'] s']; [|done].
    by apply IH.
Qed.
Section channel.
Import Update.
Context (w : world) (CONFIG : config).

Lemma get_existing_contact_channels_run self contact_arn s :
  dry_run self = false →
  get_existing_contact_channels w self contact_arn s
  = (match respond w (trace s) (ssm_contacts_list_contact_channels contact_arn) with
     | Returned ContactChannels => Returned (channels_by_type ContactChannels)
     | Raised e => if is_ClientError e then Returned [] else Raised e
     end,
     extend [Call (ssm_contacts_list_contact_channels contact_arn)] s).
Proof.
  intros Hlive. unfold get_existing_contact_channels. rewrite Hlive.
  unfold try_except, bind, call, ret.
  destruct (respond w (trace s) _) as [chans|e]; [done|].
  by destruct (is_ClientError e).
Qed.

(** [create_contact_channel] by the outcome of the wrapped creation call. *)
Lemma create_contact_channel_run self contact_arn channel_config contact_name
    s r s1 :
  dry_run self = false →
  retry_operation CONFIG self
    (call w (ssm_contacts_create_contact_channel contact_arn
               (contact_name +:+ " - " +:+ type channel_config)
               (type channel_config) (address channel_config))) s = (r, s1) →
  create_contact_channel w CONFIG self contact_arn channel_config contact_name s
  = match r with
    | Returned response =>
        (match response with
         | Some ContactChannelArn => Returned (Some ContactChannelArn)
         | None =>
             Raised (OtherException "'NoneType' object is not subscriptable")
         end,
         extend [Print ("✓ Created " +:+ type channel_config
                          +:+ " channel for " +:+ contact_name)] s1)
    | Raised e =>
        if is_ClientError e then
          if decide (error_code e = "ConflictException") then
            (existing_channels ← get_existing_contact_channels w self contact_arn;
             ret (dict_get (type channel_config) existing_channels))%M
              (extend [Print ("✓ " +:+ type channel_config
                                +:+ " channel already exists for "
                                +:+ contact_name)] s1)
          else
            (Raised e,
             extend [Print ("✗ Error creating " +:+ type channel_config
                              +:+ " channel for " +:+ contact_name +:+ ": "
                              +:+ str_exn e)] s1)
        else (Raised e, s1)
    end.
Proof.
  intros Hlive Hrun. unfold create_contact_channel. rewrite Hlive.
  cbv zeta. unfold try_except. unfold bind at 1. rewrite Hrun.
  destruct r as [response|e].
  - rewrite log_INFO. unfold bind, print, subscript, ret, raise.
    by destruct response.
  - destruct (is_ClientError e); [|done].
    case_decide.
    + by rewrite log_INFO.
    + by rewrite log_ERROR.
Qed.

Lemma log_Returned self message level s :
  ∃ s', log self message level s = (Returned tt, s').
Proof. unfold log. destruct (_ && _); eauto. Qed.





Lemma dict_get_set_ne {V} (k k' : string) (v : V) (d : dict string V) :
  k ≠ k' → dict_get k (dict_set k' v d) = dict_get k d.
Proof.
  intros Hne. induction d as [|[k0 v0] d IH]; simpl.
  - by rewrite decide_False.
  - destruct (decide (k' = k0)) as [->|]; simpl.
    + by rewrite !decide_False.
    + destruct (decide (k = k0)); [done|apply IH].
Qed.

(** A round of either channel loop touches the reference of its own
    channel type only. *)
Lemma create_channel_other_type self contact_arn details arns cc s arns' s' t :
  create_channel w CONFIG self contact_arn details arns cc s
  = (Returned arns', s') →
  t ≠ type cc → dict_get t arns' = dict_get t arns.
Proof.
  unfold create_channel, bind, ret. cbv zeta.
  destruct (create_contact_channel _ _ _ _ _ _ _) as [[r|e] s1]; [|done].
  destruct (truthy r); intros [= <- <-] Hne; [|done].
  by apply dict_get_set_ne.
Qed.

Lemma use_or_create_channel_other_type self alias contact_arn details existing
    arns cc s arns' s' t :
  use_or_create_channel w CONFIG self alias contact_arn details existing arns
    cc s = (Returned arns', s') →
  t ≠ type cc → dict_get t arns' = dict_get t arns.
Proof.
  unfold use_or_create_channel. cbv zeta.
  destruct (dict_get (type cc) existing) as [a|].
  - destruct (log_Returned self ("Using existing " +:+ type cc
                +:+ " channel for " +:+ alias) "INFO" s) as [s1 Hlog].
    rewrite (bind_Returned _ _ _ _ _ Hlog). unfold ret.
    intros [= <- <-] Hne. by apply dict_get_set_ne.
  - unfold bind, ret.
    destruct (create_contact_channel _ _ _ _ _ _ _) as [[r|e] s1]; [|done].
    destruct (truthy r); intros [= <- <-] Hne; [|done].
    by apply dict_get_set_ne.
Qed.

Lemma channel_loop_other_type
    (round : dict string string → channel_config → M (dict string string))
    (l : list channel_config) t :
  (∀ arns cc s arns' s',
     round arns cc s = (Returned arns', s') → t ≠ type cc →
     dict_get t arns' = dict_get t arns) →
  t ∉ type <$> l →
  ∀ arns s final s',
    for_fold l arns round s = (Returned final, s') →
    dict_get t final = dict_get t arns.
Proof.
  intros Hround. induction l as [|cc l IH]; intros Hnotin arns s final s'; simpl.
  - by intros [= <- <-].
  - rewrite fmap_cons, not_elem_of_cons in Hnotin. destruct Hnotin as [Hne Hl].
    unfold bind at 1.
    destruct (round arns cc s) as [[arns1|e] s1] eqn:Hcc; [|done].
    intros Hrest. rewrite (IH Hl _ _ _ _ Hrest). by eapply Hround.
Qed.

(** A channel loop that skips the round of [cc] leaves no reference for the
    type of [cc], when no other channel of the contact has that type. *)
Lemma channel_loop_skipped
    (round : dict string string → channel_config → M (dict string string))
    before cc after acc1 s0 s s3 final s' :
  (∀ arns cc s arns' s' t,
     round arns cc s = (Returned arns', s') → t ≠ type cc →
     dict_get t arns' = dict_get t arns) →
  NoDup (type <$> before ++ cc :: after) →
  for_fold before [] round s0 = (Returned acc1, s) →
  round acc1 cc s = (Returned acc1, s3) →
  for_fold (before ++ cc :: after) [] round s0 = (Returned final, s') →
  dict_get (type cc) final = None.
Proof.
  intros Hround Hnodup Hbefore Hcc Hloop.
  rewrite fmap_app, fmap_cons in Hnodup.
  apply NoDup_app in Hnodup as (_ & Hdisjoint & Hafter).
  apply NoDup_cons in Hafter as [Hafter _].
  assert (type cc ∉ type <$> before) as Hnotbefore.
  { intros Hin. apply (Hdisjoint _ Hin). left. }
  rewrite (for_fold_app _ _ _ _ _ _ _ Hbefore) in Hloop. simpl in Hloop.
  rewrite (bind_Returned _ _ _ _ _ Hcc) in Hloop.
  rewrite (channel_loop_other_type round after (type cc)
             (λ arns cc0 s arns' s', Hround arns cc0 s arns' s' (type cc))
             Hafter _ _ _ _ Hloop).
  by rewrite (channel_loop_other_type round before (type cc)
                (λ arns cc0 s arns' s', Hround arns cc0 s arns' s' (type cc))
                Hnotbefore _ _ _ _ Hbefore).
Qed.

Lemma channel_info_cons cc channels (arns : dict string string) :
  channel_info (cc :: channels) arns
  = match dict_get (type cc) arns with
    | Some a =>
        {| arn := a;
           engagement_time := default 0 (engagement_time_minutes cc);
           channel_type := type cc |} :: channel_info channels arns
    | None => channel_info channels arns
    end.
Proof. unfold channel_info. simpl. by destruct (dict_get _ _). Qed.

(** The builder gives targets to the types that have a reference only. *)
Lemma channel_info_without_reference channels (arns : dict string string) t :
  dict_get t arns = None →
  channel_info channels arns
  = channel_info (filter (λ cc, type cc ≠ t) channels) arns
  ∧ ∀ ch, ch ∈ channel_info channels arns → channel_type ch ≠ t.
Proof.
  intros Hnone. split.
  - induction channels as [|cc channels IH]; [done|].
    rewrite filter_cons, channel_info_cons.
    destruct (decide (type cc ≠ t)) as [Hne|Heq].
    + by rewrite channel_info_cons, IH.
    + apply dec_stable in Heq. by rewrite Heq, Hnone.
  - intros ch (cc & _ & _ & -> & Hget)%channel_info_delay Heq.
    rewrite Heq in Hget. congruence.
Qed.

(** C10: [get_existing_contact_channels] turns every error response of the
    listing into an empty mapping.  So when the channel-creation call
    reports a conflict and the listing that follows fails, or has no channel
    of the type, [create_contact_channel] returns [None] without raising,
    the round of the channel loop adds no reference and logs nothing more,
    and the channel gets no target in the engagement plan. *)
Theorem listing_failure_omits_existing_channel
    (self : helper) (contact_arn : string) (details : contact_details)
    (channel_config : channel_config) (s s1 : state) (text : string) :
  dry_run self = false →
  let contact_name := name details in
  let creation :=
    ssm_contacts_create_contact_channel contact_arn
      (contact_name +:+ " - " +:+ type channel_config)
      (type channel_config) (address channel_config) in
  let listing := ssm_contacts_list_contact_channels contact_arn in
  (* the listing: any error response gives the empty mapping *)
  (∀ s' Code text',
     respond w (trace s') listing = Raised (ClientError Code text') →
     get_existing_contact_channels w self contact_arn s'
     = (Returned [], extend [Call listing] s'))
  (* a conflict followed by a listing that fails or lacks the type *)
  ∧ (retry_operation CONFIG self (call w creation) s
     = (Raised (ClientError "ConflictException" text), s1) →
     let s2 := extend [Print ("✓ " +:+ type channel_config
                                +:+ " channel already exists for "
                                +:+ contact_name)] s1 in
     let s3 := extend [Call listing] s2 in
     (∃ Code text',
        respond w (trace s2) listing = Raised (ClientError Code text'))
     ∨ (∃ ContactChannels,
          respond w (trace s2) listing = Returned ContactChannels
          ∧ dict_get (type channel_config) (channels_by_type ContactChannels)
            = None) →
     (* [None], no exception *)
     create_contact_channel w CONFIG self contact_arn channel_config
       contact_name s = (Returned None, s3)
     (* the round of the loop leaves [channel_arns_by_type] as it was *)
     ∧ (∀ arns,
          create_channel w CONFIG self contact_arn details arns channel_config s
          = (Returned arns, s3))
     ∧ (∀ alias existing_channels arns,
          dict_get (type channel_config) existing_channels = None →
          use_or_create_channel w CONFIG self alias contact_arn details
            existing_channels arns channel_config s = (Returned arns, s3))
     (* so no reference of that type is left when the loop ends *)
     ∧ (∀ before after acc1 s0 final s',
          NoDup (type <$> before ++ channel_config :: after) →
          for_fold before [] (create_channel w CONFIG self contact_arn details)
            s0 = (Returned acc1, s) →
          for_fold (before ++ channel_config :: after) []
            (create_channel w CONFIG self contact_arn details) s0
          = (Returned final, s') →
          dict_get (type channel_config) final = None)
     ∧ (∀ alias existing_channels before after acc1 s0 final s',
          dict_get (type channel_config) existing_channels = None →
          NoDup (type <$> before ++ channel_config :: after) →
          for_fold before []
            (use_or_create_channel w CONFIG self alias contact_arn details
               existing_channels) s0 = (Returned acc1, s) →
          for_fold (before ++ channel_config :: after) []
            (use_or_create_channel w CONFIG self alias contact_arn details
               existing_channels) s0 = (Returned final, s') →
          dict_get (type channel_config) final = None))
  (* a type without a reference has no target in the plan *)
  ∧ (∀ channels arns,
       dict_get (type channel_config) arns = None →
       plan_stages (channel_info channels arns)
       = plan_stages
           (channel_info
              (filter (λ cc, type cc ≠ type channel_config) channels) arns)
       ∧ ∀ ch, ch ∈ channel_info channels arns →
               channel_type ch ≠ type channel_config).
Proof.
  intros Hlive contact_name creation listing.
  split; [|split].
  - intros s' Code text' Hresp.
    rewrite get_existing_contact_channels_run by done.
    fold listing. by rewrite Hresp.
  - intros Hrun s2 s3 Hlisting.
    assert (create_contact_channel w CONFIG self contact_arn channel_config
              contact_name s = (Returned None, s3)) as Hnone.
    { rewrite (create_contact_channel_run self contact_arn channel_config
                 contact_name s _ _ Hlive Hrun).
      cbv beta iota. rewrite decide_True by done.
      fold s2. unfold bind. rewrite get_existing_contact_channels_run by done.
      fold listing.
      destruct Hlisting as [(Code & text' & ->)|(chans & -> & Hget)]; [done|].
      unfold ret. by rewrite Hget. }
    assert (∀ arns,
              create_channel w CONFIG self contact_arn details arns
                channel_config s = (Returned arns, s3)) as Hround.
    { intros arns. unfold create_channel. cbv zeta.
      by rewrite (bind_Returned _ _ _ _ _ Hnone). }
    assert (∀ alias existing_channels arns,
              dict_get (type channel_config) existing_channels = None →
              use_or_create_channel w CONFIG self alias contact_arn details
                existing_channels arns channel_config s = (Returned arns, s3))
      as Hround'.
    { intros alias existing arns Hex. unfold use_or_create_channel. cbv zeta.
      rewrite Hex. by rewrite (bind_Returned _ _ _ _ _ Hnone). }
    split; [done|]. split; [done|]. split; [done|]. split.
    + intros before after acc1 s0 final s' Hnodup Hbefore Hloop.
      eapply channel_loop_skipped; [|done..].
      intros. by eapply create_channel_other_type.
    + intros alias existing before after acc1 s0 final s' Hex Hnodup Hbefore
        Hloop.
      eapply channel_loop_skipped; [|done| |by apply Hround'|done]; [|done].
      intros. by eapply use_or_create_channel_other_type.
  - intros channels arns Hnone.
    destruct (channel_info_without_reference channels arns _ Hnone) as [-> ?].
    split; [done|].
    intros ch Hin. 
    destruct (channel_info_without_reference channels arns _ Hnone) as [Heq H'].
    apply H'. by rewrite Heq.
Qed.
End channel.



Lemma listing_failure_omits_existing_channel_witness :
  let creation :=
    ssm_contacts_create_contact_channel "contact/lmhung" "L M Hung - EMAIL"
      "EMAIL" "lmhung@vinamilk.com.vn" in
  let details := {| Update.name := "L M Hung";
                    Update.channels := [email_channel; sms_channel] |} in
  let run :=
    Update.retry_operation Update.shipped_CONFIG live_helper
      (call conflict_and_throttled_world creation) initial_state in
  dry_run live_helper = false
  ∧ run = (Raised (ClientError "ConflictException" "channel already exists"),
           snd run)
  ∧ (∀ arns,
       fst (Update.create_channel conflict_and_throttled_world
              Update.shipped_CONFIG live_helper "contact/lmhung" details arns
              email_channel initial_state)
       = Returned arns).
Proof.
  intros creation details run.
  assert (dry_run live_helper = false) as Hlive by reflexivity.
  assert (run = (Raised (ClientError "ConflictException"
                           "channel already exists"), snd run)) as Hrun
    by (vm_compute; reflexivity).
  split; [exact Hlive|]. split; [exact Hrun|].
  destruct (listing_failure_omits_existing_channel
              conflict_and_throttled_world Update.shipped_CONFIG live_helper
              "contact/lmhung" details email_channel initial_state (snd run)
              "channel already exists" Hlive) as (_ & Hconflict & _).
  destruct (Hconflict Hrun) as (_ & Hround & _).
  { left. eexists _, _. reflexivity. }
  intros arns. exact (f_equal fst (Hround arns)).
Defined.

(* ================================================================== *)
(** * Work lists *)

Lemma follows_trace_elem allowed s s' ev :
  follows allowed s s' → ev ∈ trace s → ev ∈ trace s'.
Proof. intros [(evs & -> & _) _] Hin. apply elem_of_app. by left. Qed.

Lemma get_account_id_cached w s a :
  account_id s = Some a → get_account_id w s = (Returned a, s).
Proof. unfold get_account_id. by intros ->. Qed.

Lemma memoises_get_account_id w : memoises (get_account_id w).
Proof.
  intros s a s'. unfold get_account_id, call.
  destruct (account_id s) eqn:Hacc.
  - intros [= <- <-]. by rewrite Hacc.
  - destruct (respond w (trace s) sts_get_caller_identity); [|done].
    intros [= <- <-]. by eexists.
Qed.

Lemma memoises_bind {A B} (m : M A) (f : A → M B) :
  memoises m → (∀ a, respects anything (f a)) → memoises (bind m f).
Proof.
  intros Hm Hf s b s'. unfold bind.
  destruct (m s) as [[a|e] s1] eqn:Hrun; [|done].
  intros Hfa. destruct (Hm _ _ _ Hrun) as [acc Hacc].
  destruct (Hf a s1) as [_ Hkeep]. rewrite Hfa in Hkeep. simpl in Hkeep.
  exists acc. by apply Hkeep.
Qed.

Section dict_facts.
Context {V : Type}.
Implicit Types (d : dict string V).

Lemma dict_get_set_eq (k : string) (v : V) d :
  dict_get k (dict_set k v d) = Some v.
Proof.
  induction d as [|[k0 v0] d IH]; simpl.
  - by rewrite decide_True.
  - destruct (decide (k = k0)) as [->|]; simpl.
    + by rewrite decide_True.
    + by rewrite decide_False.
Qed.

Lemma length_dict_set_ge (k : string) (v : V) d :
  (length d ≤ length (dict_set k v d))%nat.
Proof.
  induction d as [|[k0 v0] d IH]; simpl; [lia|].
  destruct (decide (k = k0)); simpl; lia.
Qed.
End dict_facts.

(** Setting an entry to [True] keeps a dictionary of [True]s so. *)
Lemma dict_set_true_all_true (k : string) (d : dict string bool) :
  forallb id (dict_values d) = true →
  forallb id (dict_values (dict_set k true d)) = true.
Proof.
  unfold dict_values. induction d as [|[k0 v0] d IH]; [done|].
  rewrite fmap_cons. cbn [forallb dict_set snd].
  intros [Hv Hd]%andb_prop.
  destruct (decide (k = k0)); rewrite fmap_cons; cbn [forallb snd].
  - done.
  - apply andb_true_intro. split; [done|by apply IH].
Qed.

Lemma dict_get_all_true (k : string) (d : dict string bool) v :
  dict_get k d = Some v → forallb id (dict_values d) = true → v = true.
Proof.
  unfold dict_values. induction d as [|[k0 v0] d IH]; [done|].
  rewrite fmap_cons. cbn [forallb dict_get snd].
  intros Hget [Hv Hd]%andb_prop.
  destruct (decide (k = k0)); [|by apply IH].
  injection Hget as <-. by destruct v0.
Qed.

(** A dictionary with a [False] entry has fewer [True] entries than
    entries. *)
Lemma dict_get_false_count (k : string) (d : dict string bool) :
  dict_get k d = Some false →
  (length (filter (λ success, success = true) (dict_values d)) < length d)%nat.
Proof.
  unfold dict_values. induction d as [|[k0 v0] d IH]; [done|].
  rewrite fmap_cons, filter_cons. cbn [dict_get snd length].
  intros Hget.
  pose proof (length_filter (λ success, success = true) d.*2) as Hle.
  rewrite length_fmap in Hle.
  destruct (decide (k = k0)).
  - injection Hget as ->. rewrite decide_False by done. lia.
  - specialize (IH Hget). case_decide; cbn [length]; lia.
Qed.

Lemma steady_ret {A} (a : A) : steady (ret a).
Proof. intros s Hs. by exists a, s. Qed.

Lemma steady_bind {A B} (m : M A) (f : A → M B) :
  steady m → (∀ a, steady (f a)) → steady (bind m f).
Proof.
  intros Hm Hf s Hs. destruct (Hm s Hs) as (a & s1 & Hrun & Hs1).
  rewrite (bind_Returned _ _ _ _ _ Hrun). by apply Hf.
Qed.

Lemma steady_print line : steady (print line).
Proof. intros s Hs. by exists tt, (emit (Print line) s). Qed.

Lemma steady_log self message level : steady (log self message level).
Proof. unfold log. destruct (_ && _); [apply steady_ret|apply steady_print]. Qed.

Lemma steady_for_each {A} (l : list A) body :
  (∀ x, steady (body x)) → steady (for_each l body).
Proof.
  intros Hb. induction l as [|x l IH]; simpl; [apply steady_ret|].
  by apply steady_bind.
Qed.

Lemma steady_get_account_id w : steady (get_account_id w).
Proof.
  intros s [a Ha]. exists a, s. rewrite (get_account_id_cached w s a Ha).
  split; [done|by exists a].
Qed.

Ltac steady_step :=
  lazymatch goal with
  | |- steady (bind _ _) => apply steady_bind; [|intros]
  | |- steady (ret _) => apply steady_ret
  | |- steady (print _) => apply steady_print
  | |- steady (log _ _ _) => apply steady_log
  | |- steady (for_each _ _) => apply steady_for_each; intros
  | |- steady (get_account_id _) => apply steady_get_account_id
  | |- steady (match ?x with _ => _ end) => destruct x
  end.

Section deletion.
Import Delete.
Context (w : world) (CONFIG : config).

Lemma memoises_delete_contact self alias :
  memoises (delete_contact w CONFIG self alias).
Proof.
  assert (memoises (get_contact_arn w self alias)) as Harn.
  { apply memoises_bind; [apply memoises_get_account_id|].
    intros. apply respects_ret. }
  assert (memoises (get_contact_details w self alias)) as Hdetails.
  { apply memoises_bind; [done|]. intros contact_arn. respects_tac. }
  apply memoises_bind; [done|]. intros contact_info. respects_tac.
Qed.



(** The round catches what [delete_contact] raises and logs it. *)
Lemma delete_process_contact_caught helper contacts_processed alias s :
  process_contact w CONFIG helper contacts_processed alias s
  = (Returned
       (dict_set alias
          (succeeded (fst (delete_contact w CONFIG helper alias s)))
          contacts_processed),
     caught (failed_to_process alias) (delete_contact w CONFIG helper alias s)).
Proof.
  unfold process_contact, try_except, bind, ret, caught.
  destruct (delete_contact w CONFIG helper alias s) as [[[]|e] s1]; simpl;
    try done.
  by rewrite log_ERROR.
Qed.

Lemma after_deletions_cons helper alias l s :
  after_deletions w CONFIG helper (alias :: l) s
  = after_deletions w CONFIG helper l
      (caught (failed_to_process alias) (delete_contact w CONFIG helper alias s)).
Proof. done. Qed.

(** The loop of [main] attempts every item of the work list in turn and
    records the outcome of each; it never raises. *)
Lemma deletion_loop helper l contacts_processed s :
  for_fold l contacts_processed (process_contact w CONFIG helper) s
  = (Returned (record_deletions contacts_processed
                 (deletions w CONFIG helper l s)),
     after_deletions w CONFIG helper l s).
Proof.
  revert contacts_processed s.
  induction l as [|alias l IH]; intros d s; [done|].
  cbn [for_fold deletions]. unfold bind.
  rewrite delete_process_contact_caught, IH, after_deletions_cons. done.
Qed.

Lemma deletions_aliases helper l s :
  (deletions w CONFIG helper l s).*1 = l.
Proof.
  revert s. induction l as [|alias l IH]; intros s; [done|].
  cbn [deletions]. rewrite fmap_cons. by rewrite IH.
Qed.

Lemma record_deletions_other d rs alias :
  alias ∉ rs.*1 → dict_get alias (record_deletions d rs) = dict_get alias d.
Proof.
  revert d. induction rs as [|[a r] rs IH]; intros d Hnotin; [done|].
  rewrite fmap_cons, not_elem_of_cons in Hnotin. destruct Hnotin as [Hne Hrs].
  unfold record_deletions. cbn [foldl].
  fold (record_deletions (dict_set a (succeeded r) d) rs).
  rewrite IH by done. by apply dict_get_set_ne.
Qed.

(** Without repeated aliases, each item keeps its own record. *)
Lemma record_deletions_lookup d rs alias r :
  NoDup rs.*1 → (alias, r) ∈ rs →
  dict_get alias (record_deletions d rs) = Some (succeeded r).
Proof.
  revert d. induction rs as [|[a r'] rs IH]; intros d Hnodup Hin.
  - by apply elem_of_nil in Hin.
  - rewrite fmap_cons in Hnodup. apply NoDup_cons in Hnodup as [Hnotin Hnodup].
    unfold record_deletions. cbn [foldl].
    fold (record_deletions (dict_set a (succeeded r') d) rs).
    apply elem_of_cons in Hin as [[= -> ->]|Hin]; [|by apply IH].
    rewrite record_deletions_other by done. apply dict_get_set_eq.
Qed.

Lemma record_deletions_all_true d rs :
  forallb id (dict_values d) = true →
  Forall (λ ar, succeeded ar.2 = true) rs →
  forallb id (dict_values (record_deletions d rs)) = true.
Proof.
  revert d. induction rs as [|[a r] rs IH]; intros d Hd Hall; [done|].
  apply Forall_cons in Hall as [Hr Hall]. simpl in Hr.
  unfold record_deletions. cbn [foldl].
  fold (record_deletions (dict_set a (succeeded r) d) rs).
  apply IH; [|done]. rewrite Hr. by apply dict_set_true_all_true.
Qed.

(** When every item succeeded, the account identifier is memoised by the
    end of the loop. *)
Lemma deletion_loop_memoises helper l s :
  is_Some (account_id s) ∨ l ≠ [] →
  Forall (λ ar, succeeded ar.2 = true) (deletions w CONFIG helper l s) →
  is_Some (account_id (after_deletions w CONFIG helper l s)).
Proof.
  revert s. induction l as [|alias l IH]; intros s Hstart Hall.
  - by destruct Hstart.
  - cbn [deletions] in Hall. apply Forall_cons in Hall as [Hr Hall].
    rewrite after_deletions_cons. apply IH; [|done]. left.
    simpl in Hr.
    destruct (delete_contact w CONFIG helper alias s) as [[[]|e] s1] eqn:Hrun;
      try done.
    by eapply memoises_delete_contact.
Qed.

Lemma steady_print_summary self contacts_processed :
  steady (print_summary w self contacts_processed).
Proof. unfold print_summary. repeat steady_step. Qed.

Lemma print_run line s : print line s = (Returned tt, extend [Print line] s).
Proof. done. Qed.

Lemma bind_bind {A B C} (m : M A) (f : A → M B) (g : B → M C) s :
  bind (bind m f) g s = bind m (λ a, bind (f a) g) s.
Proof. unfold bind. by destruct (m s) as [[a|e] s1]. Qed.

(** The loop that prints the failed aliases prints every alias recorded as
    failed. *)
Lemma for_each_failed_prints (contacts_processed : dict string bool) s :
  ∃ evs,
    for_each contacts_processed (λ '(alias, success),
      if negb success then print ("  • " +:+ alias) else ret tt) s
    = (Returned tt, extend evs s)
    ∧ ∀ alias, dict_get alias contacts_processed = Some false →
               Print ("  • " +:+ alias) ∈ evs.
Proof.
  revert s. induction contacts_processed as [|[a success] d IH]; intros s.
  - exists []. split; [|done]. unfold extend. rewrite app_nil_r.
    by destruct s.
  - cbn [for_each dict_get]. destruct success; cbn [negb].
    + rewrite (bind_Returned _ _ s tt s) by done.
      destruct (IH s) as (evs & -> & Hevs). exists evs. split; [done|].
      intros alias. destruct (decide (alias = a)); [done|apply Hevs].
    + rewrite (bind_Returned _ _ _ _ _ (print_run _ s)).
      destruct (IH (extend [Print ("  • " +:+ a)] s)) as (evs & -> & Hevs).
      exists (Print ("  • " +:+ a) :: evs). split.
      * by rewrite extend_extend.
      * intros alias. destruct (decide (alias = a)) as [->|].
        -- intros _. left.
        -- intros Hget. right. by apply Hevs.
Qed.

(** The summary lists, under its heading, every alias recorded as failed. *)
Lemma print_summary_lists_failed self contacts_processed s alias :
  dict_get alias contacts_processed = Some false →
  ∃ evs1 evs2,
    trace (snd (print_summary w self contacts_processed s))
    = trace s ++ evs1 ++ Print (nl +:+ "Failed deletions:") :: evs2
    ∧ Print ("  • " +:+ alias) ∈ evs2.
Proof.
  intros Hfailed. unfold print_summary. cbv zeta.
  pose proof (dict_get_false_count alias contacts_processed Hfailed) as Hcount.
  set (successful := length (filter _ (dict_values contacts_processed))) in *.
  rewrite (bool_decide_eq_true_2 (0 < _)%nat) by lia.
  rewrite (bind_Returned _ _ _ _ _ (print_run _ _)).
  assert (∃ heading, (if dry_run self then print "DRY RUN SUMMARY"
                      else print "DELETION SUMMARY")
                     = print heading) as [heading ->]
    by (destruct (dry_run self); eauto).
  do 5 rewrite (bind_Returned _ _ _ _ _ (print_run _ _)).
  rewrite !extend_extend. cbn [app].
  match goal with
  | |- context [extend ?evs s] => set (evs1 := evs)
  end.
  unfold bind at 1. unfold bind at 1.
  rewrite print_run, extend_extend.
  destruct (for_each_failed_prints contacts_processed
              (extend (evs1 ++ [Print (nl +:+ "Failed deletions:")]) s))
    as (evs & -> & Hevs).
  rewrite extend_extend.
  match goal with
  | |- context [snd (?rest (extend ?evs' s))] =>
      assert (respects anything rest) as Hrest by respects_tac;
      destruct (Hrest (extend evs' s)) as [(evs_rest & -> & _) _]
  end.
  exists evs1, (evs ++ evs_rest). split.
  - cbn [extend trace]. by rewrite <- !app_assoc.
  - apply elem_of_app. left. by apply Hevs.
Qed.

(** [main] up to the loop, for a work list that is not empty, when the
    clients can be built and the deletion, if confirmation is asked for,
    is confirmed. *)
Lemma delete_main_run l s :
  l ≠ [] → client_failure w = None →
  let helper := {| dry_run := CONFIG_dry_run CONFIG;
                   verbose := CONFIG_verbose CONFIG;
                   region := CONFIG_aws_region CONFIG |} in
  let s_clients := extend (deletion_banner CONFIG) s in
  let confirmation := confirm_deletion w CONFIG l s_clients in
  (CONFIG_require_confirmation CONFIG = true →
   fst confirmation = Returned true) →
  main w CONFIG l s
  = (contacts_processed ← for_fold l [] (process_contact w CONFIG helper);
     print_summary w helper contacts_processed;;
     ret (forallb id (dict_values contacts_processed)))%M
      (extend [Print ("✓ " +:+ nl +:+ "Starting contact deletion process...")]
         (if CONFIG_require_confirmation CONFIG then snd confirmation
          else s_clients)).
Proof.
  intros Hne Hclient helper s_clients confirmation Hconfirmed. unfold main.
  rewrite bool_decide_eq_false_2 by done. rewrite Hclient.
  fold helper. rewrite !log_INFO.
  do 3 rewrite (bind_Returned _ _ _ _ _ (print_run _ _)).
  rewrite !extend_extend. cbn [app].
  assert (∀ {B} (f : unit → M B),
            ((if CONFIG_dry_run CONFIG then
                print (nl +:+ rule);;
                print "DRY RUN MODE ENABLED";;
                print rule;;
                print "No actual changes will be made to AWS resources.";;
                print "To perform actual deletion:";;
                print "  1. Set CONFIG['dry_run'] = False";;
                print "  2. Run the script again";;
                print (rule +:+ nl)
              else ret tt);; f tt)%M
              (extend [Print "AWS Incident Manager - Contact Deletion Script";
                       Print "Version: 1.1";
                       Print "✓ AWS clients initialized"] s)
            = f tt s_clients) as Hbanner.
  { intros B f. unfold s_clients, deletion_banner.
    destruct (CONFIG_dry_run CONFIG).
    - repeat (rewrite bind_bind
              || rewrite (bind_Returned _ _ _ _ _ (print_run _ _))).
      by rewrite !extend_extend.
    - rewrite (bind_Returned _ _ _ tt _) by done. by rewrite app_nil_r. }
  rewrite (Hbanner _ (λ _, _)). clear Hbanner.
  destruct (CONFIG_require_confirmation CONFIG).
  - fold confirmation. specialize (Hconfirmed eq_refl).
    destruct confirmation as [[[]|e] s3] eqn:Hrun; try done.
    rewrite (bind_Returned _ _ _ _ _ Hrun). cbn [negb snd].
    by rewrite (bind_Returned _ _ _ _ _ (print_run _ _)).
  - rewrite (bind_Returned _ _ _ true _) by done. cbn [negb].
    by rewrite (bind_Returned _ _ _ _ _ (print_run _ _)).
Qed.
End deletion.

(* ================================================================== *)
(** * Deleting a contact that does not exist *)




(* ================================================================== *)
(** * Validation of the configuration *)

Lemma extend_nil s : extend [] s = s.
Proof. unfold extend. destruct s; simpl. by rewrite app_nil_r. Qed.

Section validation.
Import Update.
Context (CONTACTS_DEFINITION : dict string contact_details).
Context (RESPONSE_PLANS_TO_UPDATE : dict string response_plan_update).

Lemma checks_iff (P Q : Prop) check : (P ↔ Q) → checks P check → checks Q check.
Proof.
  intros HPQ Hc s. destruct (Hc s) as (ok & lines & Hrun & Hok & Hlines).
  exists ok, lines. by rewrite <- HPQ.
Qed.

(** A check that passes without a word. *)
Lemma checks_pass (P : Prop) : P → checks P (ret true).
Proof.
  intros HP s. exists true, []. rewrite fmap_nil, extend_nil.
  by repeat split.
Qed.

(** The early [return False], after its error line. *)
Lemma checks_fail (P : Prop) self message :
  ¬ P → checks P (log self message "ERROR";; ret false).
Proof.
  intros HP s. exists false, ["✗ " +:+ message].
  rewrite log_ERROR, (bind_Returned _ _ _ _ _ (print_run _ _)).
  split; [done|]. split; [by split|]. split; [done|eauto].
Qed.

Lemma checks_all_pass {A} (P : A → Prop) (l : list A) check :
  (∀ x, checks (P x) (check x)) → checks (Forall P l) (all_pass l check).
Proof.
  intros Hc. induction l as [|x l IH]; cbn [all_pass].
  - by apply checks_pass.
  - intros s. destruct (Hc x s) as (ok & lines & Hrun & Hok & Hpass & Hfail).
    rewrite (bind_Returned _ _ _ _ _ Hrun). destruct ok.
    + rewrite (Hpass eq_refl), fmap_nil, extend_nil.
      destruct (IH s) as (ok' & lines' & Hrun' & Hok' & Hlines').
      exists ok', lines'. split; [done|]. split; [|done].
      rewrite Hok', Forall_cons. intuition.
    + exists false, lines. split; [done|]. split; [|done].
      split; [done|]. intros [HP _]%Forall_cons. by apply Hok in HP.
Qed.

Lemma checks_validate_channel self alias channel :
  checks (valid_channel channel) (validate_channel self alias channel).
Proof.
  unfold validate_channel, valid_channel.
  case_bool_decide as Htype; [apply checks_fail; tauto|].
  case_bool_decide as Haddress; [apply checks_fail; tauto|].
  cbv zeta. case_bool_decide as Htime; [apply checks_fail; lia|].
  apply checks_pass. split; [|split; [done|lia]].
  by destruct (decide (type channel ∈ ["EMAIL"; "SMS"; "VOICE"])).
Qed.

Lemma checks_validate_contact self item :
  checks (valid_contact item) (validate_contact self item).
Proof.
  destruct item as [alias details]. unfold validate_contact, valid_contact.
  cbn [fst snd].
  case_bool_decide as Halias; [apply checks_fail; tauto|].
  case_bool_decide as Hname; [apply checks_fail; tauto|].
  case_bool_decide as Hchannels; [apply checks_fail; tauto|].
  eapply checks_iff; [|apply checks_all_pass, checks_validate_channel].
  tauto.
Qed.

Lemma checks_validate_response_plan self item :
  checks (valid_response_plan CONTACTS_DEFINITION item)
    (validate_response_plan CONTACTS_DEFINITION self item).
Proof.
  destruct item as [plan_name plan_details].
  unfold validate_response_plan, valid_response_plan. cbn [fst snd].
  case_bool_decide as Hname; [apply checks_fail; tauto|].
  cbv zeta. case_bool_decide as Hcontacts; [apply checks_fail; tauto|].
  eapply checks_iff; [|apply checks_all_pass].
  { split; [intros Hall; split; [done|split; [done|exact Hall]]|tauto]. }
  intros contact_alias. unfold dict_mem.
  case_bool_decide; [by apply checks_pass|by apply checks_fail].
Qed.

(** A run of [validate_configuration]: the debug line, when the helper is
    verbose; then nothing but the verdict, which is [True] exactly for the
    valid configurations. *)
Lemma validate_configuration_run self s :
  ∃ ok lines,
    validate_configuration CONTACTS_DEFINITION RESPONSE_PLANS_TO_UPDATE self s
    = (Returned ok,
       extend (Print <$> (if verbose self
                          then ["→ Validating configuration..."] else [])
                         ++ lines) s)
    ∧ (ok = true
       ↔ valid_configuration CONTACTS_DEFINITION RESPONSE_PLANS_TO_UPDATE)
    ∧ (ok = true → lines = ["✓ Configuration validation passed"])
    ∧ (ok = false → ∃ message, lines = ["✗ " +:+ message]).
Proof.
  unfold validate_configuration, valid_configuration.
  set (lines0 := if verbose self then _ else _).
  assert (log self "Validating configuration..." "DEBUG" s
          = (Returned tt, extend (Print <$> lines0) s)) as Hlog.
  { unfold log, lines0. destruct (verbose self); simpl; [done|].
    by rewrite extend_nil. }
  rewrite (bind_Returned _ _ _ _ _ Hlog).
  destruct (checks_all_pass valid_contact CONTACTS_DEFINITION
              (validate_contact self) (checks_validate_contact self)
              (extend (Print <$> lines0) s))
    as (ok1 & lines1 & Hrun1 & Hok1 & Hpass1 & Hfail1).
  rewrite (bind_Returned _ _ _ _ _ Hrun1), extend_extend, <- fmap_app.
  destruct ok1.
  2:{ exists false, lines1. split; [done|]. split; [|done].
      split; [done|]. intros [H1 _]. by apply Hok1 in H1. }
  rewrite (Hpass1 eq_refl), app_nil_r.
  destruct (checks_all_pass (valid_response_plan CONTACTS_DEFINITION)
              RESPONSE_PLANS_TO_UPDATE
              (validate_response_plan CONTACTS_DEFINITION self)
              (checks_validate_response_plan self)
              (extend (Print <$> lines0) s))
    as (ok2 & lines2 & Hrun2 & Hok2 & Hpass2 & Hfail2).
  rewrite (bind_Returned _ _ _ _ _ Hrun2), extend_extend, <- fmap_app.
  destruct ok2.
  - rewrite (Hpass2 eq_refl), app_nil_r.
    rewrite log_INFO, (bind_Returned _ _ _ _ _ (print_run _ _)).
    exists true, ["✓ Configuration validation passed"].
    unfold ret. rewrite extend_extend, fmap_app.
    split; [done|]. split; [|done]. split; [|done].
    intros _. split; [by apply Hok1|by apply Hok2].
  - exists false, lines2. split; [done|]. split; [|done].
    split; [done|]. intros [_ H2]. by apply Hok2 in H2.
Qed.

(** A configuration that passes validation is valid. *)
Lemma validate_configuration_passed self s :
  fst (validate_configuration CONTACTS_DEFINITION RESPONSE_PLANS_TO_UPDATE
         self s) = Returned true →
  valid_configuration CONTACTS_DEFINITION RESPONSE_PLANS_TO_UPDATE.
Proof.
  destruct (validate_configuration_run self s) as (ok & lines & -> & Hok & _).
  intros [= ->]. by apply Hok.
Qed.
End validation.

(* ================================================================== *)
(** * Partial failure of a work list *)

Section update_loops.
Import Update.
Context (w : world) (CONFIG : config).
Context (CONTACTS_DEFINITION : dict string contact_details).
Context (RESPONSE_PLANS_TO_UPDATE : dict string response_plan_update).

(** One round of the loop over the contacts: what
    [create_or_update_contact] raises is caught and logged, and the
    outcome is recorded. *)
Lemma update_process_contact_caught helper contact_arns success alias
    details s :
  process_contact w CONFIG helper (contact_arns, success) (alias, details) s
  = (Returned
       match fst (create_or_update_contact w CONFIG helper alias details s) with
       | Returned contact_arn =>
           (if truthy (Some contact_arn)
            then dict_set alias contact_arn contact_arns
            else contact_arns, success)
       | Raised _ => (contact_arns, false)
       end,
     caught (failed_to_process alias)
       (create_or_update_contact w CONFIG helper alias details s)).
Proof.
  unfold process_contact, try_except, bind, ret, caught.
  destruct (create_or_update_contact w CONFIG helper alias details s)
    as [[contact_arn|e] s1]; cbn [fst is_Exception].
  - by destruct (truthy (Some contact_arn)).
  - by rewrite log_ERROR.
Qed.

Lemma after_contact_updates_cons helper alias details l s :
  after_contact_updates w CONFIG helper ((alias, details) :: l) s
  = after_contact_updates w CONFIG helper l
      (caught (failed_to_process alias)
         (create_or_update_contact w CONFIG helper alias details s)).
Proof. done. Qed.

(** The loop over the contacts attempts every contact in turn and never
    raises. *)
Lemma contact_loop helper l locals s :
  for_fold l locals (process_contact w CONFIG helper) s
  = (Returned (record_updates locals (contact_updates w CONFIG helper l s)),
     after_contact_updates w CONFIG helper l s).
Proof.
  revert locals s.
  induction l as [|[alias details] l IH]; intros [contact_arns success] s;
    [done|].
  cbn [for_fold contact_updates]. unfold bind.
  rewrite update_process_contact_caught, IH, after_contact_updates_cons.
  done.
Qed.

Lemma contact_updates_aliases helper l s :
  (contact_updates w CONFIG helper l s).*1 = l.*1.
Proof.
  revert s. induction l as [|[alias details] l IH]; intros s; [done|].
  cbn [contact_updates]. rewrite !fmap_cons. by rewrite IH.
Qed.

(** [success] stays [True] only if every contact returned. *)
Lemma record_updates_success contact_arns success rs :
  snd (record_updates (contact_arns, success) rs)
  = success && forallb (λ ar, returned ar.2) rs.
Proof.
  revert contact_arns success.
  induction rs as [|[alias r] rs IH]; intros contact_arns success.
  - by rewrite andb_true_r.
  - unfold record_updates. cbn [foldl forallb snd].
    destruct r as [contact_arn|e]; cbn [returned].
    + fold (record_updates
              (if truthy (Some contact_arn)
               then dict_set alias contact_arn contact_arns
               else contact_arns, success) rs).
      by rewrite IH.
    + fold (record_updates (contact_arns, false) rs).
      rewrite IH. by destruct success.
Qed.

(** [contact_arns] holds contacts whose update returned, and no other. *)
Lemma record_updates_contact_arns contact_arns success rs alias :
  is_Some (dict_get alias (fst (record_updates (contact_arns, success) rs))) →
  is_Some (dict_get alias contact_arns)
  ∨ ∃ contact_arn, (alias, Returned contact_arn) ∈ rs.
Proof.
  revert contact_arns success.
  induction rs as [|[a r] rs IH]; intros contact_arns success; [by left|].
  unfold record_updates. cbn [foldl].
  destruct r as [contact_arn|e].
  - fold (record_updates
            (if truthy (Some contact_arn)
             then dict_set a contact_arn contact_arns
             else contact_arns, success) rs).
    intros [Hin|(arn & Hin)]%IH.
    + destruct (truthy (Some contact_arn)); [|by left].
      destruct (decide (alias = a)) as [->|Hne].
      * right. exists contact_arn. left.
      * left. by rewrite dict_get_set_ne in Hin.
    + right. exists arn. by right.
  - fold (record_updates (contact_arns, false) rs).
    intros [Hin|(arn & Hin)]%IH; [by left|].
    right. exists arn. by right.
Qed.

(** One round of the loop over the response plans. *)
Lemma process_response_plan_caught helper contact_arns success plan_name
    plan_details s :
  process_response_plan w CONFIG helper contact_arns success
    (plan_name, plan_details) s
  = (Returned
       (success
        && returned (fst (update_response_plan w CONFIG helper plan_name
                            plan_details contact_arns s))),
     caught (failed_to_update plan_name)
       (update_response_plan w CONFIG helper plan_name plan_details
          contact_arns s)).
Proof.
  unfold process_response_plan, try_except, bind, ret, caught.
  destruct (update_response_plan w CONFIG helper plan_name plan_details
              contact_arns s) as [[[]|e] s1]; cbn [fst returned is_Exception].
  - by rewrite andb_true_r.
  - by rewrite log_ERROR, andb_false_r.
Qed.

Lemma after_plan_updates_cons helper contact_arns plan_name plan_details l s :
  after_plan_updates w CONFIG helper contact_arns
    ((plan_name, plan_details) :: l) s
  = after_plan_updates w CONFIG helper contact_arns l
      (caught (failed_to_update plan_name)
         (update_response_plan w CONFIG helper plan_name plan_details
            contact_arns s)).
Proof. done. Qed.

(** The loop over the response plans attempts every plan in turn and
    never raises. *)
Lemma plan_loop helper contact_arns l success s :
  for_fold l success (process_response_plan w CONFIG helper contact_arns) s
  = (Returned
       (success
        && forallb (λ pr, returned pr.2)
             (plan_updates w CONFIG helper contact_arns l s)),
     after_plan_updates w CONFIG helper contact_arns l s).
Proof.
  revert success s. induction l as [|[plan_name plan_details] l IH];
    intros success s.
  - cbn [for_fold plan_updates forallb]. by rewrite andb_true_r.
  - cbn [for_fold plan_updates forallb snd]. unfold bind.
    rewrite process_response_plan_caught, IH, after_plan_updates_cons.
    by rewrite andb_assoc.
Qed.

(** [main], when the clients can be built and the configuration is valid:
    both loops run over all their items, the summary is printed from
    [contact_arns], and [main] returns [success]. *)
Lemma update_main_run s :
  client_failure w = None →
  valid_configuration CONTACTS_DEFINITION RESPONSE_PLANS_TO_UPDATE →
  let helper := {| dry_run := CONFIG_dry_run CONFIG;
                   verbose := CONFIG_verbose CONFIG;
                   region := CONFIG_aws_region CONFIG |} in
  let s0 := extend (update_banner CONFIG) s in
  let contacts := contact_updates w CONFIG helper CONTACTS_DEFINITION s0 in
  let contact_arns := fst (record_updates ([], true) contacts) in
  let s1 :=
    extend [ Print "✓ --- Contact Definitions Processed ---";
             Print ("✓ " +:+ nl
                      +:+ "--- [2/2] Processing Response Plan Updates ---") ]
      (after_contact_updates w CONFIG helper CONTACTS_DEFINITION s0) in
  let plans :=
    plan_updates w CONFIG helper contact_arns RESPONSE_PLANS_TO_UPDATE s1 in
  let s2 :=
    extend [ Print "✓ --- Response Plan Updates Processed ---" ]
      (after_plan_updates w CONFIG helper contact_arns
         RESPONSE_PLANS_TO_UPDATE s1) in
  let success := forallb (λ ar, returned ar.2) contacts
                 && forallb (λ pr, returned pr.2) plans in
  main w CONFIG CONTACTS_DEFINITION RESPONSE_PLANS_TO_UPDATE s
  = (print_summary w CONFIG CONTACTS_DEFINITION RESPONSE_PLANS_TO_UPDATE
       helper contact_arns;;
     log helper (nl +:+ "Script execution "
                   +:+ (if success then "completed successfully"
                        else "completed with errors") +:+ ".") "INFO";;
     ret success)%M s2.
Proof.
  intros Hclient Hvalid helper s0 contacts contact_arns s1 plans s2 success.
  match goal with |- _ = ?run => set (rest := run) end.
  unfold main. rewrite Hclient. fold helper.
  rewrite (bind_Returned _ _ _ _ _ (print_run _ _)).
  rewrite !log_INFO, !log_ERROR, !log_WARN.
  rewrite (bind_Returned _ _ _ _ _ (print_run _ _)), extend_extend.
  destruct (validate_configuration_run CONTACTS_DEFINITION
              RESPONSE_PLANS_TO_UPDATE helper
              (extend ([Print "Starting AWS Incident Manager Configuration Script..."]
                       ++ [Print "✓ AWS clients initialized"]) s))
    as (ok & lines & Hrun & Hok & Hpass & _).
  rewrite (bind_Returned _ _ _ _ _ Hrun), extend_extend.
  apply Hok in Hvalid as ->. rewrite (Hpass eq_refl). cbn [negb].
  assert (∀ {B} (f : unit → M B) s',
            ((if CONFIG_dry_run CONFIG
              then print "! Running in DRY RUN mode - no changes will be made"
              else ret tt);; f tt)%M s'
            = f tt (extend (if CONFIG_dry_run CONFIG
                            then [Print "! Running in DRY RUN mode - no changes will be made"]
                            else []) s')) as Hdry.
  { intros B f s'. destruct (CONFIG_dry_run CONFIG).
    - by rewrite (bind_Returned _ _ _ _ _ (print_run _ _)).
    - by rewrite extend_nil. }
  rewrite (Hdry _ (λ _, _)). clear Hdry.
  rewrite (bind_Returned _ _ _ _ _ (print_run _ _)), !extend_extend.
  assert (∀ ev, (([Print "Starting AWS Incident Manager Configuration Script..."]
                  ++ [Print "✓ AWS clients initialized"])
                 ++ (Print <$> (if verbose helper
                                then ["→ Validating configuration..."] else [])
                               ++ ["✓ Configuration validation passed"]))
                ++ (if CONFIG_dry_run CONFIG
                    then [Print "! Running in DRY RUN mode - no changes will be made"]
                    else [])
                ++ [ev]
                = [ Print "Starting AWS Incident Manager Configuration Script...";
                    Print "✓ AWS clients initialized" ]
                  ++ (if CONFIG_verbose CONFIG
                      then [Print "→ Validating configuration..."] else [])
                  ++ [ Print "✓ Configuration validation passed" ]
                  ++ (if CONFIG_dry_run CONFIG
                      then [Print "! Running in DRY RUN mode - no changes will be made"]
                      else [])
                  ++ [ev]) as Hbanner.
  { intros ev. cbn [verbose helper].
    by destruct (CONFIG_verbose CONFIG), (CONFIG_dry_run CONFIG). }
  rewrite Hbanner. clear Hbanner. fold (update_banner CONFIG). fold s0.
  rewrite (bind_Returned _ _ _ _ _ (contact_loop _ _ _ _)).
  fold contacts.
  pose proof (record_updates_success [] true contacts) as Hsucc.
  subst contact_arns.
  destruct (record_updates ([], true) contacts) as [contact_arns success0]
    eqn:Hrec.
  cbn [fst] in *. cbn [snd andb] in Hsucc.
  do 2 rewrite (bind_Returned _ _ _ _ _ (print_run _ _)).
  rewrite extend_extend. cbn [app]. fold s1.
  rewrite (bind_Returned _ _ _ _ _ (plan_loop _ _ _ _ _)).
  fold plans.
  rewrite (bind_Returned _ _ _ _ _ (print_run _ _)). fold s2.
  subst success0 rest. reflexivity.
Qed.
End update_loops.

Section deletion_status.
Import Delete.
Context (w : world) (CONFIG : config).

(** The exit status of the deletion script, for a run that reaches the
    loop over the work list. *)
Lemma delete_script_status l s :
  l ≠ [] → client_failure w = None →
  let helper := {| dry_run := CONFIG_dry_run CONFIG;
                   verbose := CONFIG_verbose CONFIG;
                   region := CONFIG_aws_region CONFIG |} in
  let s_clients := extend (deletion_banner CONFIG) s in
  let confirmation := confirm_deletion w CONFIG l s_clients in
  (CONFIG_require_confirmation CONFIG = true →
   fst confirmation = Returned true) →
  let s0 :=
    extend [Print ("✓ " +:+ nl +:+ "Starting contact deletion process...")]
      (if CONFIG_require_confirmation CONFIG then snd confirmation
       else s_clients) in
  let items := deletions w CONFIG helper l s0 in
  let status := fst (script w CONFIG l s) in
  main w CONFIG l s
  = (print_summary w helper (record_deletions [] items);;
     ret (forallb id (dict_values (record_deletions [] items))))%M
      (after_deletions w CONFIG helper l s0)
  ∧ (status = 0 ∨ status = 1)
  ∧ (Forall (λ ar, succeeded ar.2 = true) items → status = 0)
  ∧ (NoDup l → status = 0 → Forall (λ ar, succeeded ar.2 = true) items)
  ∧ (NoDup l → ∀ alias r, (alias, r) ∈ items → succeeded r = false →
       status = 1
       ∧ ∃ tr evs,
           trace (snd (script w CONFIG l s))
           = tr ++ Print (nl +:+ "Failed deletions:") :: evs
           ∧ Print ("  • " +:+ alias) ∈ evs).
Proof.
  intros Hne Hclient helper s_clients confirmation Hconfirmed s0 items status.
  pose proof (delete_main_run w CONFIG l s Hne Hclient Hconfirmed) as Hmain.
  fold helper s_clients confirmation s0 in Hmain.
  rewrite (bind_Returned _ _ _ _ _ (deletion_loop w CONFIG helper l [] s0))
    in Hmain.
  fold items in Hmain.
  set (d := record_deletions [] items) in *.
  set (sf := after_deletions w CONFIG helper l s0) in *.
  assert (status = (match print_summary w helper d sf with
                    | (Returned _, _) =>
                        if forallb id (dict_values d) then 0 else 1
                    | (Raised _, _) => 1
                    end)) as Hstatus.
  { unfold status, script. rewrite Hmain. unfold bind, ret.
    by destruct (print_summary w helper d sf) as [[[]|e] s']. }
  assert (trace (snd (script w CONFIG l s))
          = trace (snd (print_summary w helper d sf))) as Htrace.
  { unfold script. rewrite Hmain. unfold bind, ret.
    destruct (print_summary w helper d sf) as [[[]|e] s']; cbn [snd];
      [by destruct (forallb id (dict_values d))|done]. }
  assert (NoDup l → ∀ alias r, (alias, r) ∈ items →
          dict_get alias d = Some (succeeded r)) as Hrecord.
  { intros Hnodup alias r Hin. apply record_deletions_lookup; [|done].
    unfold items. by rewrite deletions_aliases. }
  assert (NoDup l → status = 0 → Forall (λ ar, succeeded ar.2 = true) items)
    as Hall_succeeded.
  { intros Hnodup H0. rewrite Hstatus in H0.
    destruct (print_summary w helper d sf) as [[[]|e] s']; [|done].
    destruct (forallb id (dict_values d)) eqn:Hall; [|done].
    apply Forall_forall. intros [alias r] Hin. cbn [snd].
    pose proof (Hrecord Hnodup alias r Hin) as Hget.
    by apply (dict_get_all_true _ _ _ Hget). }
  assert (status = 0 ∨ status = 1) as Hstatus01.
  { rewrite Hstatus. destruct (print_summary w helper d sf) as [[[]|e] s'];
      [destruct (forallb id (dict_values d))|]; auto. }
  split; [done|]. split; [done|]. split; [|split; [done|]].
  - intros Hall. rewrite Hstatus.
    assert (is_Some (account_id sf)) as Hsf.
    { apply deletion_loop_memoises; [by right|done]. }
    destruct (steady_print_summary w helper d sf Hsf) as ([] & s' & -> & _).
    unfold d. by rewrite (record_deletions_all_true [] items).
  - intros Hnodup alias r Hin Hfailed. split.
    + destruct Hstatus01 as [H0|H1]; [|done].
      pose proof (Hall_succeeded Hnodup H0) as Hall.
      rewrite Forall_forall in Hall. specialize (Hall _ Hin). simpl in Hall.
      congruence.
    + pose proof (Hrecord Hnodup alias r Hin) as Hget. rewrite Hfailed in Hget.
      destruct (print_summary_lists_failed w helper d sf alias Hget)
        as (evs1 & evs2 & Hsummary & Hlisted).
      exists (trace sf ++ evs1), evs2. split; [|done].
      by rewrite Htrace, Hsummary, <- app_assoc.
Qed.
End deletion_status.

(** C7, as the code has it.  In both scripts a round of the loop over the
    work list catches whatever its item raises, logs it as an error and
    records the outcome, so that every item is attempted in turn, each in
    the state the round before it left.  The deletion script, in a run
    that reaches the loop, exits with status 0 if every item succeeded; for
    a work list without repeated aliases it exits with status 1 otherwise,
    and its summary lists the failed aliases.  In the create/update script
    [main], given a valid configuration, runs both loops, returns [True]
    only if no contact and no response plan raised, and prints its summary
    from [contact_arns], which holds contacts whose update returned and no
    other. *)
Theorem work_list_partial_failure (w : world) :
  (* im-delete-contacts.py: a round of the loop *)
  (∀ CONFIG helper contacts_processed alias s,
     let run := Delete.delete_contact w CONFIG helper alias s in
     Delete.process_contact w CONFIG helper contacts_processed alias s
     = (Returned (dict_set alias (succeeded (fst run)) contacts_processed),
        caught (failed_to_process alias) run))
  (* the loop *)
  ∧ (∀ CONFIG helper l contacts_processed s,
       for_fold l contacts_processed (Delete.process_contact w CONFIG helper) s
       = (Returned (record_deletions contacts_processed
                      (deletions w CONFIG helper l s)),
          after_deletions w CONFIG helper l s)
       ∧ (deletions w CONFIG helper l s).*1 = l)
  (* the exit status and the summary of a run that reaches the loop *)
  ∧ (∀ CONFIG l s,
       l ≠ [] → client_failure w = None →
       let helper := {| dry_run := Delete.CONFIG_dry_run CONFIG;
                        verbose := Delete.CONFIG_verbose CONFIG;
                        region := Delete.CONFIG_aws_region CONFIG |} in
       let s_clients := extend (deletion_banner CONFIG) s in
       let confirmation := Delete.confirm_deletion w CONFIG l s_clients in
       (Delete.CONFIG_require_confirmation CONFIG = true →
        fst confirmation = Returned true) →
       let s0 :=
         extend [Print ("✓ " +:+ nl
                          +:+ "Starting contact deletion process...")]
           (if Delete.CONFIG_require_confirmation CONFIG
            then snd confirmation else s_clients) in
       let items := deletions w CONFIG helper l s0 in
       let status := fst (Delete.script w CONFIG l s) in
       Delete.main w CONFIG l s
       = (Delete.print_summary w helper (record_deletions [] items);;
          ret (forallb id (dict_values (record_deletions [] items))))%M
           (after_deletions w CONFIG helper l s0)
       ∧ (status = 0 ∨ status = 1)
       ∧ (Forall (λ ar, succeeded ar.2 = true) items → status = 0)
       ∧ (NoDup l → status = 0 →
          Forall (λ ar, succeeded ar.2 = true) items)
       ∧ (NoDup l → ∀ alias r, (alias, r) ∈ items → succeeded r = false →
            status = 1
            ∧ ∃ tr evs,
                trace (snd (Delete.script w CONFIG l s))
                = tr ++ Print (nl +:+ "Failed deletions:") :: evs
                ∧ Print ("  • " +:+ alias) ∈ evs))
  (* im-update1.py: a round of the loop over the contacts *)
  ∧ (∀ CONFIG helper contact_arns success alias details s,
       let run :=
         Update.create_or_update_contact w CONFIG helper alias details s in
       Update.process_contact w CONFIG helper (contact_arns, success)
         (alias, details) s
       = (Returned
            match fst run with
            | Returned contact_arn =>
                (if truthy (Some contact_arn)
                 then dict_set alias contact_arn contact_arns
                 else contact_arns, success)
            | Raised _ => (contact_arns, false)
            end,
          caught (failed_to_process alias) run))
  (* the loop over the contacts *)
  ∧ (∀ CONFIG helper l locals s,
       for_fold l locals (Update.process_contact w CONFIG helper) s
       = (Returned (record_updates locals (contact_updates w CONFIG helper l s)),
          after_contact_updates w CONFIG helper l s)
       ∧ (contact_updates w CONFIG helper l s).*1 = l.*1)
  (* a round of the loop over the response plans *)
  ∧ (∀ CONFIG helper contact_arns success plan_name plan_details s,
       let run :=
         Update.update_response_plan w CONFIG helper plan_name plan_details
           contact_arns s in
       Update.process_response_plan w CONFIG helper contact_arns success
         (plan_name, plan_details) s
       = (Returned (success && returned (fst run)),
          caught (failed_to_update plan_name) run))
  (* the loop over the response plans *)
  ∧ (∀ CONFIG helper contact_arns l success s,
       for_fold l success
         (Update.process_response_plan w CONFIG helper contact_arns) s
       = (Returned
            (success
             && forallb (λ pr, returned pr.2)
                  (plan_updates w CONFIG helper contact_arns l s)),
          after_plan_updates w CONFIG helper contact_arns l s))
  (* what [main] returns, and what it prints the summary from *)
  ∧ (∀ CONFIG CONTACTS_DEFINITION RESPONSE_PLANS_TO_UPDATE s,
       client_failure w = None →
       valid_configuration CONTACTS_DEFINITION RESPONSE_PLANS_TO_UPDATE →
       let helper := {| dry_run := Update.CONFIG_dry_run CONFIG;
                        verbose := Update.CONFIG_verbose CONFIG;
                        region := Update.CONFIG_aws_region CONFIG |} in
       let s0 := extend (update_banner CONFIG) s in
       let contacts :=
         contact_updates w CONFIG helper CONTACTS_DEFINITION s0 in
       let contact_arns := fst (record_updates ([], true) contacts) in
       let s1 :=
         extend [ Print "✓ --- Contact Definitions Processed ---";
                  Print ("✓ " +:+ nl
                           +:+ "--- [2/2] Processing Response Plan Updates ---") ]
           (after_contact_updates w CONFIG helper CONTACTS_DEFINITION s0) in
       let plans :=
         plan_updates w CONFIG helper contact_arns
           RESPONSE_PLANS_TO_UPDATE s1 in
       let s2 :=
         extend [ Print "✓ --- Response Plan Updates Processed ---" ]
           (after_plan_updates w CONFIG helper contact_arns
              RESPONSE_PLANS_TO_UPDATE s1) in
       let success := forallb (λ ar, returned ar.2) contacts
                      && forallb (λ pr, returned pr.2) plans in
       Update.main w CONFIG CONTACTS_DEFINITION RESPONSE_PLANS_TO_UPDATE s
       = (Update.print_summary w CONFIG CONTACTS_DEFINITION
            RESPONSE_PLANS_TO_UPDATE helper contact_arns;;
          log helper (nl +:+ "Script execution "
                        +:+ (if success then "completed successfully"
                             else "completed with errors") +:+ ".") "INFO";;
          ret success)%M s2
       ∧ ∀ b,
           fst (Update.main w CONFIG CONTACTS_DEFINITION
                  RESPONSE_PLANS_TO_UPDATE s) = Returned b →
           b = success)
  ∧ (∀ contacts alias,
       is_Some (dict_get alias (fst (record_updates ([], true) contacts))) →
       ∃ contact_arn, (alias, Returned contact_arn) ∈ contacts).
Proof.
  split; [|split; [|split; [|split; [|split; [|split; [|split; [|split]]]]]]].
  - intros. apply delete_process_contact_caught.
  - intros. split; [apply deletion_loop|apply deletions_aliases].
  - intros CONFIG l s. apply delete_script_status.
  - intros. apply update_process_contact_caught.
  - intros. split; [apply contact_loop|apply contact_updates_aliases].
  - intros. apply process_response_plan_caught.
  - intros. apply plan_loop.
  - intros CONFIG CONTACTS PLANS s Hclient Hvalid.
    pose proof (update_main_run w CONFIG CONTACTS PLANS s Hclient Hvalid)
      as Hmain.
    cbv zeta in *. split; [exact Hmain|].
    intros b. rewrite Hmain. unfold bind at 1.
    destruct (Update.print_summary _ _ _ _ _ _ _) as [[[]|e] s3]; [|done].
    rewrite log_INFO, (bind_Returned _ _ _ _ _ (print_run _ _)).
    by intros [= <-].
  - intros contacts alias [Hin|Hin]%record_updates_contact_arns; [|done].
    by destruct Hin.
Qed.

Lemma work_list_partial_failure_witness :
  let l := ["alice"; "bob"; "carol"] in
  let s_clients := extend (deletion_banner confirming_CONFIG) initial_state in
  let confirmation :=
    Delete.confirm_deletion one_forbidden_world confirming_CONFIG l s_clients in
  let s0 :=
    extend [Print ("✓ " +:+ nl +:+ "Starting contact deletion process...")]
      (snd confirmation) in
  let items :=
    deletions one_forbidden_world confirming_CONFIG live_helper l s0 in
  let denied := ClientError "AccessDeniedException" "not authorized" in
  (* the deletion script: the second of three items fails *)
  l ≠ []
  ∧ client_failure one_forbidden_world = None
  ∧ (Delete.CONFIG_require_confirmation confirming_CONFIG = true →
     fst confirmation = Returned true)
  ∧ NoDup l
  ∧ items = [("alice", Returned true); ("bob", Raised denied);
             ("carol", Returned true)]
  ∧ fst (Delete.script one_forbidden_world confirming_CONFIG l initial_state)
    = 1
  ∧ (∃ tr evs,
       trace (snd (Delete.script one_forbidden_world confirming_CONFIG l
                     initial_state))
       = tr ++ Print (nl +:+ "Failed deletions:") :: evs
       ∧ Print ("  • bob") ∈ evs)
  (* the create/update script: the second of four contacts fails *)
  ∧ client_failure one_denied_world = None
  ∧ valid_configuration Update.shipped_CONTACTS_DEFINITION
      Update.shipped_RESPONSE_PLANS_TO_UPDATE
  ∧ (∀ b,
       fst (Update.main one_denied_world Update.shipped_CONFIG
              Update.shipped_CONTACTS_DEFINITION
              Update.shipped_RESPONSE_PLANS_TO_UPDATE initial_state)
       = Returned b →
       b = false).
Proof.
  intros l s_clients confirmation s0 items denied.
  assert (l ≠ []) as Hne by discriminate.
  assert (client_failure one_forbidden_world = None) as Hclient
    by reflexivity.
  assert (Delete.CONFIG_require_confirmation confirming_CONFIG = true →
          fst confirmation = Returned true) as Hconfirmed
    by (intros _; vm_compute; reflexivity).
  assert (NoDup l) as Hnodup by compute_done.
  assert (items = [("alice", Returned true); ("bob", Raised denied);
                   ("carol", Returned true)]) as Hitems
    by (vm_compute; reflexivity).
  assert (("bob", Raised denied) ∈ items) as Hbob
    by (rewrite Hitems; right; left).
  assert (client_failure one_denied_world = None) as Hclient' by reflexivity.
  assert (valid_configuration Update.shipped_CONTACTS_DEFINITION
            Update.shipped_RESPONSE_PLANS_TO_UPDATE) as Hvalid.
  { apply (validate_configuration_passed _ _ live_helper initial_state).
    vm_compute. reflexivity. }
  destruct (work_list_partial_failure one_forbidden_world)
    as (_ & _ & Hdelete & _).
  destruct (Hdelete confirming_CONFIG l initial_state Hne Hclient Hconfirmed)
    as (_ & _ & _ & _ & Hfailed).
  destruct (Hfailed Hnodup "bob" (Raised denied) Hbob eq_refl)
    as [Hstatus Hlisted].
  destruct (work_list_partial_failure one_denied_world)
    as (_ & _ & _ & _ & _ & _ & _ & Hupdate & _).
  destruct (Hupdate Update.shipped_CONFIG Update.shipped_CONTACTS_DEFINITION
              Update.shipped_RESPONSE_PLANS_TO_UPDATE initial_state
              Hclient' Hvalid) as [_ Hreturns].
  split; [exact Hne|]. split; [exact Hclient|]. split; [exact Hconfirmed|].
  split; [exact Hnodup|]. split; [exact Hitems|]. split; [exact Hstatus|].
  split; [exact Hlisted|]. split; [exact Hclient'|]. split; [exact Hvalid|].
  intros b Hb. rewrite (Hreturns b Hb). vm_compute. reflexivity.
Defined.

(** C7, as the specification words it, does not hold.  In the
    create/update script, when the second of the four contacts fails, the
    three others are processed and [main] returns [False], but the exit
    status is 0 and the summary lists the three contacts processed, not the
    failed one.  In the deletion script, an alias that is listed twice and
    fails the first time but not the second leaves one record, a success:
    the exit status is 0 and the summary counts no failure. *)
Lemma exit_status_and_summary_miss_failures :
  (let run := Update.script one_denied_world Update.shipped_CONFIG
                Update.shipped_CONTACTS_DEFINITION
                Update.shipped_RESPONSE_PLANS_TO_UPDATE initial_state in
   fst (Update.main one_denied_world Update.shipped_CONFIG
          Update.shipped_CONTACTS_DEFINITION
          Update.shipped_RESPONSE_PLANS_TO_UPDATE initial_state)
   = Returned false
   ∧ "✗ Failed to process contact dnkhanh: not authorized"
     ∈ printed (trace (snd run))
   ∧ fst run = 0
   ∧ printed_from "EXECUTION SUMMARY" (trace (snd run))
     = [ "EXECUTION SUMMARY";
         rule;
         "Contacts processed: 3";
         " • lmhung (L M Hung) - 2 channel(s)";
         "   Engagement times: [15, 15] minutes";
         " • ntquy (N T Quy) - 2 channel(s)";
         "   Engagement times: [15, 15] minutes";
         " • dvcong (D V Cong) - 2 channel(s)";
         "   Engagement times: [10, 15] minutes";
         nl +:+ "Response plans to update: 2";
         " • vnm-data-prod-aws-health-crictical-response - 2 contact(s)";
         " • vnm-data-prod-aws-health-high-response - 3 contact(s)";
         nl +:+ "Configuration:";
         " • Dry run: False";
         " • AWS Region: default";
         " • AWS Account: 123456789012";
         rule;
         "✓ " +:+ nl +:+ "Script execution completed with errors." ])
  ∧ (let run := Delete.script flaky_world Delete.shipped_CONFIG
                  ["asdasd"; "asdasd"] initial_state in
     "✗ Failed to process contact asdasd: rate exceeded"
     ∈ printed (trace (snd run))
     ∧ fst run = 0
     ∧ printed_from "DELETION SUMMARY" (trace (snd run))
       = [ "DELETION SUMMARY";
           rule;
           "Total contacts processed: 1";
           "  • Deleted: 1";
           "  • Failed: 0";
           nl +:+ "Configuration:";
           "  • Mode: LIVE DELETION";
           "  • AWS Region: default";
           "  • AWS Account: 123456789012";
           rule ]).
Proof.
  split; cbv zeta.
  - split; [vm_compute; reflexivity|]. split.
    + apply list_elem_of_In. vm_compute. tauto.
    + split; vm_compute; reflexivity.
  - split.
    + apply list_elem_of_In. vm_compute. tauto.
    + split; vm_compute; reflexivity.
Qed.

(* ================================================================== *)
(** * More on the engagement-plan builder *)

Section plan_shape.
Import Update.
Implicit Types (info : list channel) (plan : list stage) (ts : list Z).

Local Abbreviation times info :=
  (sorted_engagement_times (engagement_groups info)).

(** Every stage of every plan waits at least one minute, whatever the
    delays of the channels: the remote service rejects a stage whose
    duration is not positive. *)
Theorem plan_stages_positive_durations info :
  Forall (λ st, 0 < DurationInMinutes st) (plan_stages info).
Proof. apply plan_stages_waits_positive. Qed.

(** Grouping by key and reading the groups back in any order without
    repetition rearranges a list, if every key is read. *)
Lemma concat_groups_Permutation {A} (key : A → Z) (l : list A) ts :
  NoDup ts → (∀ x, x ∈ l → key x ∈ ts) →
  concat ((λ t, filter (λ x, key x = t) l) <$> ts) ≡ₚ l.
Proof.
  intros Hnd. revert l. induction Hnd as [|t ts Hnotin Hnd IH]; intros l Hl.
  - destruct l as [|x l]; [done|].
    assert (key x ∈ []) as Hx by (apply Hl; left).
    by apply elem_of_nil in Hx.
  - rewrite fmap_cons. cbn [concat].
    etrans; [|apply (filter_app_complement (λ x, key x = t) l)].
    apply Permutation_app_head.
    assert ((λ t', filter (λ x, key x = t') l) <$> ts
            = (λ t', filter (λ x, key x = t')
                       (filter (λ x, ¬ key x = t) l)) <$> ts) as ->.
    { apply list_fmap_ext. intros k t' Ht'.
      rewrite list_filter_filter. apply list_filter_iff. intros x.
      split; [|tauto]. intros Hx. split; [done|]. intros Ht.
      apply Hnotin. rewrite <- Ht, Hx. eapply list_elem_of_lookup_2, Ht'. }
    apply IH. intros x [Hx Hin]%list_elem_of_filter.
    specialize (Hl x Hin). apply elem_of_cons in Hl as [?|?]; done.
Qed.

Lemma plan_stages_targets_Permutation info :
  concat (Targets <$> plan_stages info) ≡ₚ channel_target <$> info.
Proof.
  unfold plan_stages. cbv zeta. rewrite fmap_app, concat_app.
  assert (concat (Targets <$> initial_wait (times info)) = []) as ->.
  { destruct (times info) as [|t0 ts]; simpl; [done|]. by case_decide. }
  rewrite app_nil_l, fmap_imap.
  rewrite (imap_ext _ (const (targets_at info))).
  2:{ intros k t _. exact (Targets_group_stage info (times info) k t). }
  rewrite imap_const.
  trans (channel_target
           <$> concat ((λ t, filter (λ ch, engagement_time ch = t) info)
                         <$> times info)).
  - unfold targets_at.
    induction (times info) as [|t ts IH]; [done|].
    rewrite !fmap_cons. cbn [concat]. by rewrite fmap_app, IH.
  - apply fmap_Permutation, concat_groups_Permutation.
    + apply NoDup_sorted_engagement_times.
    + intros ch Hin. apply elem_of_sorted_times. eauto.
Qed.

(** No channel is lost and none is engaged twice: the channel references
    targeted by the stages of the plan, taken together, are the references
    of the channels of [channel_info], each as often as it occurs there. *)
Theorem plan_stages_targets_each_channel_once info :
  ContactChannelId <$> concat (Targets <$> plan_stages info) ≡ₚ arn <$> info.
Proof.
  rewrite plan_stages_targets_Permutation, <- list_fmap_compose. done.
Qed.

(** The largest delay is the last of the sorted delays. *)
Lemma times_last_largest info d :
  (∃ ch, ch ∈ info ∧ engagement_time ch = d) →
  (∀ ch, ch ∈ info → engagement_time ch ≤ d) →
  times info !! pred (length (times info)) = Some d.
Proof.
  intros Hd%elem_of_sorted_times Hmax.
  apply list_elem_of_lookup_1 in Hd as [i Hi].
  pose proof (lookup_lt_Some _ _ _ Hi) as Hlt.
  destruct (times info !! pred (length (times info))) as [t'|] eqn:Hlast.
  2:{ apply lookup_ge_None in Hlast. lia. }
  destruct (decide (i = pred (length (times info)))) as [->|Hne];
    [congruence|].
  assert (d < t') as Hdt.
  { eapply (StronglySorted_lookup_lt (times info) i);
      [apply sorted_engagement_times_lt|done..|lia]. }
  assert (t' ∈ times info) as (ch & Hin & <-)%elem_of_sorted_times
    by (eapply list_elem_of_lookup_2, Hlast).
  specialize (Hmax ch Hin). lia.
Qed.

(** A plan built from non-negative delays lasts one minute longer than
    its largest delay: the waits of all its stages add up to the largest
    delay plus the one-minute wait of the last stage. *)
Theorem plan_stages_total_wait info d :
  (∃ ch, ch ∈ info ∧ engagement_time ch = d) →
  (∀ ch, ch ∈ info → 0 ≤ engagement_time ch ≤ d) →
  total_wait (plan_stages info) = d + 1.
Proof.
  intros Hd Hrange.
  assert (times info !! pred (length (times info)) = Some d) as Hlast.
  { apply times_last_largest; [done|]. intros ch Hin. by apply Hrange. }
  pose proof (lookup_lt_Some _ _ _ Hlast) as Hlt.
  set (k := pred (length (times info))) in *.
  set (m := (length (initial_wait (times info)) + k)%nat).
  pose proof (plan_stages_group_lookup info k d Hlast) as Hst. fold m in Hst.
  assert (length (plan_stages info) = S m) as Hlen.
  { unfold plan_stages. cbv zeta. rewrite length_app, length_imap. lia. }
  rewrite <- (take_ge (plan_stages info) (S m)) by lia.
  rewrite (take_S_r _ _ _ Hst), total_wait_app.
  change (total_wait (take m (plan_stages info)))
    with (engaged_at (plan_stages info) m).
  unfold m. rewrite (engaged_at_plan_stages info k d); [|intros; by apply Hrange|done].
  unfold total_wait, group_stage, stage_duration. cbn [foldr DurationInMinutes].
  rewrite decide_False by lia. lia.
Qed.

(** [channel_info] keeps, in the configured order, the channels whose type
    has a reference, and it looks the reference up by type: channels of
    the same type are planned with the same reference. *)
Theorem channel_info_by_type channels (channel_arns_by_type : dict string string) :
  channel_type <$> channel_info channels channel_arns_by_type
  = filter (λ t, is_Some (dict_get t channel_arns_by_type)) (type <$> channels)
  ∧ Forall (λ ch, dict_get (channel_type ch) channel_arns_by_type
                  = Some (arn ch))
      (channel_info channels channel_arns_by_type).
Proof.
  split.
  - induction channels as [|cc channels IH]; [done|].
    rewrite channel_info_cons, fmap_cons, filter_cons.
    destruct (dict_get (type cc) channel_arns_by_type) as [a|] eqn:Ha.
    + rewrite decide_True by eauto. rewrite fmap_cons. by f_equal.
    + rewrite decide_False by (by intros [? ?]). done.
  - apply Forall_forall. intros ch (cc & _ & _ & -> & Hget)%channel_info_delay.
    done.
Qed.
End plan_shape.

Lemma plan_stages_total_wait_witness :
  let info := [ {| Update.arn := "arn:email"; Update.engagement_time := 10;
                   Update.channel_type := "EMAIL" |};
                {| Update.arn := "arn:sms"; Update.engagement_time := 15;
                   Update.channel_type := "SMS" |} ] in
  (∃ ch, ch ∈ info ∧ Update.engagement_time ch = 15)
  ∧ (∀ ch, ch ∈ info → 0 ≤ Update.engagement_time ch ≤ 15)
  ∧ Update.total_wait (Update.plan_stages info) = 16.
Proof.
  intros info.
  assert (∃ ch, ch ∈ info ∧ Update.engagement_time ch = 15) as H1.
  { eexists. split; [right; left|reflexivity]. }
  assert (∀ ch, ch ∈ info → 0 ≤ Update.engagement_time ch ≤ 15) as H2.
  { intros ch Hin.
    repeat (apply elem_of_cons in Hin as [->|Hin]; [simpl; lia|]).
    by apply elem_of_nil in Hin. }
  split; [exact H1|]. split; [exact H2|].
  exact (plan_stages_total_wait info 15 H1 H2).
Defined.

(* ================================================================== *)
(** * Edge cases of the retry wrapper and of the channel listing *)

Section retry_edge.
Import Update.
Context (w : world) (CONFIG : config).

(** With [CONFIG["retry_attempts"]] at zero or below, the loop of
    [retry_operation] has no round: the operation is never called and the
    wrapper returns [None].  [create_contact_channel] then logs that the
    channel was created and fails on [response["ContactChannelArn"]] with
    a [TypeError], which its [except ClientError] does not catch. *)
Theorem retry_operation_no_attempts (self : helper) :
  CONFIG_retry_attempts CONFIG ≤ 0 →
  (∀ A (operation : M A) s,
     retry_operation CONFIG self operation s = (Returned None, s))
  ∧ (dry_run self = false →
     ∀ contact_arn channel_config contact_name s,
       create_contact_channel w CONFIG self contact_arn channel_config
         contact_name s
       = (Raised (OtherException "'NoneType' object is not subscriptable"),
          extend [Print ("✓ Created " +:+ type channel_config
                           +:+ " channel for " +:+ contact_name)] s)).
Proof.
  intros Hle.
  assert (∀ A (operation : M A) s,
            retry_operation CONFIG self operation s = (Returned None, s))
    as Hretry.
  { intros. unfold retry_operation. by rewrite seqZ_nil. }
  split; [done|]. intros Hlive contact_arn cc contact_name s.
  unfold create_contact_channel. cbv zeta. rewrite Hlive.
  unfold try_except.
  rewrite (bind_Returned _ _ _ _ _ (Hretry _ _ s)).
  rewrite log_INFO, (bind_Returned _ _ _ _ _ (print_run _ _)).
  done.
Qed.
End retry_edge.

Lemma retry_operation_no_attempts_witness :
  let CONFIG := {| Update.CONFIG_dry_run := false;
                   Update.CONFIG_retry_attempts := 0;
                   Update.CONFIG_retry_delay := 2;
                   Update.CONFIG_aws_region := None;
                   Update.CONFIG_verbose := true |} in
  Update.CONFIG_retry_attempts CONFIG ≤ 0
  ∧ dry_run live_helper = false
  ∧ Update.retry_operation CONFIG live_helper
      (call fresh_world (ssm_contacts_get_contact "contact/lmhung"))
      initial_state
    = (Returned None, initial_state)
  ∧ fst (Update.create_contact_channel fresh_world CONFIG live_helper
           "contact/lmhung" email_channel "L M Hung" initial_state)
    = Raised (OtherException "'NoneType' object is not subscriptable").
Proof.
  intros CONFIG.
  assert (Update.CONFIG_retry_attempts CONFIG ≤ 0) as Hle by (simpl; lia).
  assert (dry_run live_helper = false) as Hlive by reflexivity.
  split; [exact Hle|]. split; [exact Hlive|]. split.
  - exact (proj1 (retry_operation_no_attempts fresh_world CONFIG live_helper
                    Hle) _ _ initial_state).
  - exact (f_equal fst
             (proj2 (retry_operation_no_attempts fresh_world CONFIG
                       live_helper Hle) Hlive
                "contact/lmhung" email_channel "L M Hung" initial_state)).
Defined.

Section channel_listing.
Import Update.

Lemma channels_by_type_from (d : dict string string) l t :
  dict_get t (foldl (λ d channel,
                       dict_set (Type_ channel) (ContactChannelArn channel) d)
                d l)
  = match last (filter (λ channel, Type_ channel = t) l) with
    | Some channel => Some (ContactChannelArn channel)
    | None => dict_get t d
    end.
Proof.
  revert d. induction l as [|c l IH]; intros d; [done|].
  cbn [foldl]. rewrite IH, filter_cons.
  destruct (decide (Type_ c = t)) as [<-|Hne].
  - destruct (filter _ l) as [|c' l'] eqn:Hf.
    + cbn [last]. apply dict_get_set_eq.
    + rewrite last_cons_cons.
      destruct (last (c' :: l')) eqn:Hlast; [done|].
      by apply last_None in Hlast.
  - destruct (last _); [done|]. by apply dict_get_set_ne.
Qed.

(** The mapping from channel type to channel reference that
    [get_existing_contact_channels] builds from a listing knows a type if
    and only if the listing has a channel of that type, and then holds the
    reference of the last such channel. *)
Theorem channels_by_type_last (ContactChannels : list contact_channel) t :
  dict_get t (channels_by_type ContactChannels)
  = ContactChannelArn <$> last (filter (λ channel, Type_ channel = t)
                                  ContactChannels).
Proof.
  unfold channels_by_type. rewrite channels_by_type_from.
  by destruct (last _).
Qed.
End channel_listing.

(* ================================================================== *)
(** * What validation accepts *)

(** [validate_configuration] returns [True] exactly for the valid
    configurations: every contact has an alias, a name and at least one
    channel, every channel a type among EMAIL, SMS and VOICE, an address
    and a delay that is not negative, and every response plan has a name
    and at least one contact, all of them defined.  It does nothing but
    print: the debug line of a verbose helper, then either that validation
    passed or the one error it found first. *)
Theorem validate_configuration_checks
    (CONTACTS_DEFINITION : dict string Update.contact_details)
    (RESPONSE_PLANS_TO_UPDATE : dict string Update.response_plan_update)
    (self : helper) (s : state) :
  ∃ ok lines,
    Update.validate_configuration CONTACTS_DEFINITION RESPONSE_PLANS_TO_UPDATE
      self s
    = (Returned ok,
       extend (Print <$> (if verbose self
                          then ["→ Validating configuration..."] else [])
                         ++ lines) s)
    ∧ (ok = true
       ↔ valid_configuration CONTACTS_DEFINITION RESPONSE_PLANS_TO_UPDATE)
    ∧ (ok = true → lines = ["✓ Configuration validation passed"])
    ∧ (ok = false → ∃ message, lines = ["✗ " +:+ message]).
Proof. apply validate_configuration_run. Qed.
